(** * Maestro-AI backend: the aggregation pipeline of [server.js]

    A shallow embedding of the helpers of [server.js] ([cleanBullets],
    [buildConclusion], [safeCall], [bulletPrompt], [performWebSearch]) and of
    the [/ask] handler, with the properties the specification states about
    them.

    JavaScript strings are sequences of UTF-16 code units; [length],
    [substring], [trim] and the regular expressions of the source all work
    on code units, so a string is modelled as a list of code units. *)

From Stdlib Require Import NArith Ascii String DecimalString.
From stdpp Require Import base decidable option list gmap.

Local Open Scope N_scope.
Local Open Scope nat_scope.

(** ** JavaScript strings *)

Abbreviation jsstring := (list N).

(** An ASCII literal of the source as a sequence of code units. *)
Definition js (s : string) : jsstring := N_of_ascii <$> list_ascii_of_string s.

Definition LF : N := 10%N.          (* "\n" *)
Definition dash : N := 45%N.        (* "-" *)
Definition star : N := 42%N.        (* "*" *)
Definition hash : N := 35%N.        (* "#" *)
Definition backtick : N := 96%N.    (* "`" *)

(** The class [\s] of a JavaScript regular expression, which is also the set
    of code units that [String.prototype.trim] removes: WhiteSpace and
    LineTerminator of ECMAScript. *)
Definition is_space (c : N) : bool :=
  ((9 <=? c) && (c <=? 13) || (c =? 32) || (c =? 0xA0) || (c =? 0x1680)
   || (0x2000 <=? c) && (c <=? 0x200A) || (c =? 0x2028) || (c =? 0x2029)
   || (c =? 0x202F) || (c =? 0x205F) || (c =? 0x3000) || (c =? 0xFEFF))%N.

(** [[*\-#\s]] *)
Definition is_lead_marker (c : N) : bool :=
  ((c =? star) || (c =? dash) || (c =? hash))%N || is_space c.

(** [[*#`]] *)
Definition is_inline_marker (c : N) : bool :=
  ((c =? star) || (c =? hash) || (c =? backtick))%N.

(** Deleting a leading run, as a [replace] with a pattern anchored at the
    start and the empty replacement does; also the left half of [trim]. *)
Fixpoint drop_while (p : N → bool) (s : jsstring) : jsstring :=
  match s with
  | [] => []
  | c :: s' => if p c then drop_while p s' else s
  end.

Definition trimStart (s : jsstring) : jsstring := drop_while is_space s.
Fixpoint trimEnd (s : jsstring) : jsstring :=
  match s with
  | [] => []
  | c :: s' =>
      match trimEnd s' with
      | [] => if is_space c then [] else [c]
      | r => c :: r
      end
  end.
Definition trim (s : jsstring) : jsstring := trimEnd (trimStart s).

(** Deleting every code unit of a class: a global [replace] by the empty
    string. *)
Definition remove_all (p : N → bool) (s : jsstring) : jsstring :=
  List.filter (λ c, negb (p c)) s.

(** [s.split(sep)] for a separator of one code unit; splitting the empty
    string gives one empty piece. *)
Fixpoint split (sep : N) (s : jsstring) : list jsstring :=
  match s with
  | [] => [[]]
  | c :: s' =>
      if (c =? sep)%N then [] :: split sep s'
      else match split sep s' with
           | [] => [[c]]
           | l :: ls => (c :: l) :: ls
           end
  end.

(** [a.join(sep)] for an array of strings. *)
Fixpoint join (sep : jsstring) (ls : list jsstring) : jsstring :=
  match ls with
  | [] => []
  | [l] => l
  | l :: ls' => l ++ sep ++ join sep ls'
  end.

(** [s.substring(0, n)] *)
Definition substring0 (n : nat) (s : jsstring) : jsstring := take n s.

(** ** helper: clean bullets *)

(** The callback of the first [map]: delete the leading run of
    [[*\-#\s]], delete every [[*#`]], then [trim]. *)
Definition strip_markers (l : jsstring) : jsstring :=
  trim (remove_all is_inline_marker (drop_while is_lead_marker l)).

(** [`- ${l}`] *)
Definition bullet (l : jsstring) : jsstring := js "- " ++ l.

(** The array of [cleanBullets] before the uniform marker is put back:
    [text.split(LF).map(...).filter((l) => l.length > 3).slice(0, max)].
    [max] is a bullet count; every call of the source passes 8. *)
Definition bullets (text : jsstring) (max : nat) : list jsstring :=
  take max (filter (λ l, 3 < length l) (strip_markers <$> split LF text)).

Definition cleanBullets (text : jsstring) (max : nat) : jsstring :=
  join [LF] (bullet <$> bullets text max).


(** ** JavaScript values that the helpers meet *)

(** A property that holds a string or is missing. *)
Inductive jsval := JUndef | JStr (s : jsstring).

Definition truthy (v : jsval) : bool :=
  match v with JStr (_ :: _) => true | _ => false end.

(** [a || b] *)
Definition js_or (a b : jsval) : jsval := if truthy a then a else b.

(** Interpolation in a template literal. *)
Definition to_str (v : jsval) : jsstring :=
  match v with JUndef => js "undefined" | JStr s => s end.

(** The object literal that [performWebSearch] returns per page. *)
Record evidence := Evidence {
  url : jsval;
  title : jsval;
  date : jsval;
  excerpt : jsval
}.

(** ** helper: build 5-bullet CONCLUSION with citations *)

(** [citationsMap] is an ordinary object: it has own properties, and a
    prototype, [Object.prototype] unless a write to the key [__proto__]
    replaced it by an evidence record. *)
Record citations := Citations {
  own : gmap jsstring evidence;
  proto : option evidence
}.

Definition no_citations : citations := Citations ∅ None.

Definition object_prototype_keys : list jsstring :=
  js <$> [ "constructor"; "__defineGetter__"; "__defineSetter__";
           "hasOwnProperty"; "__lookupGetter__"; "__lookupSetter__";
           "isPrototypeOf"; "propertyIsEnumerable"; "toString"; "valueOf";
           "__proto__"; "toLocaleString" ]%string.

(** What a property read on [citationsMap] can give. *)
Inductive property :=
  | PRecord (e : evidence)     (* an evidence record *)
  | PBuiltin                   (* a function or object of [Object.prototype] *)
  | PPrim (v : jsval).         (* a string, or undefined *)

(** An own property of an evidence record, by name. *)
Definition evidence_field (e : evidence) (k : jsstring) : option jsval :=
  if decide (k = js "url") then Some (url e)
  else if decide (k = js "title") then Some (title e)
  else if decide (k = js "date") then Some (date e)
  else if decide (k = js "excerpt") then Some (excerpt e)
  else None.

(** [citationsMap[b]] *)
Definition cit_get (cm : citations) (b : jsstring) : property :=
  if decide (b = js "__proto__") then
    match proto cm with Some e => PRecord e | None => PBuiltin end
  else
    match own cm !! b with
    | Some e => PRecord e
    | None =>
        match proto cm ≫= λ e, evidence_field e b with
        | Some v => PPrim v
        | None =>
            if decide (b ∈ object_prototype_keys) then PBuiltin
            else PPrim JUndef
        end
    end.

(** [citationsMap[b] = e] *)
Definition cit_set (b : jsstring) (e : evidence) (cm : citations) : citations :=
  if decide (b = js "__proto__") then Citations (own cm) (Some e)
  else Citations (<[b := e]> (own cm)) (proto cm).

Definition prop_truthy (p : property) : bool :=
  match p with PRecord _ | PBuiltin => true | PPrim v => truthy v end.

(** [p.title], [p.url], [p.date]: only an evidence record has them. *)
Definition prop_field (f : evidence → jsval) (p : property) : jsval :=
  match p with PRecord e => f e | _ => JUndef end.

(** The suffix of a conclusion line, [cit] in the source. *)
Definition suffix_of (p : property) : jsstring :=
  js " [" ++ to_str (prop_field title p) ++ js "](" ++ to_str (prop_field url p)
  ++ js ") (" ++ to_str (js_or (prop_field date p) (JStr (js "N/A"))) ++ js ")".

Definition cit (cm : citations) (b : jsstring) : jsstring :=
  if prop_truthy (cit_get cm b) then suffix_of (cit_get cm b) else [].

(** [new Set(lines)], as the sequence of its elements in insertion order. *)
Definition Set_add (s : list jsstring) (x : jsstring) : list jsstring :=
  if decide (x ∈ s) then s else s ++ [x].
Definition Set_of (lines : list jsstring) : list jsstring :=
  foldl Set_add [] lines.

(** The callback of [map] in [buildConclusion]: delete a leading dash and
    the white space after it, then [trim]. *)
Definition strip_dash (l : jsstring) : jsstring :=
  match l with
  | c :: l' => if (c =? dash)%N then drop_while is_space l' else l
  | [] => []
  end.

Definition conclusion_bullets (text : jsstring) : list jsstring :=
  filter (λ l, 3 < length l) ((λ l, trim (strip_dash l)) <$> split LF text).

(** The body of [bullets.forEach((b, i) => ...)]. *)
Definition visit_bullet (srcs : option (list evidence))
    (acc : list jsstring * citations) (ib : nat * jsstring)
    : list jsstring * citations :=
  (acc.1 ++ [ib.2],
   match srcs ≫= (.!! ib.1) with
   | Some e => cit_set ib.2 e acc.2
   | None => acc.2
   end).

(** The body of [for (const [model, text] of Object.entries(results))];
    [results] is given as the sequence of its entries. The read
    [sources[model] && sources[model][i]] is a lookup in the own properties
    of [sources]: what [sources] inherits has no property at an index. *)
Definition visit_entry (sources : gmap jsstring (list evidence))
    (acc : list jsstring * citations) (entry : jsstring * jsstring)
    : list jsstring * citations :=
  foldl (visit_bullet (sources !! entry.1)) acc
        (imap pair (conclusion_bullets entry.2)).

Definition collect (results : list (jsstring * jsstring))
    (sources : gmap jsstring (list evidence)) : list jsstring * citations :=
  foldl (visit_entry sources) ([], no_citations) results.

Definition decorate (cm : citations) (b : jsstring) : jsstring :=
  bullet b ++ cit cm b.

(** The array that [unique.map(...)] makes, before [join]. *)
Definition conclusion_lines (results : list (jsstring * jsstring))
    (sources : gmap jsstring (list evidence)) : list jsstring :=
  let acc := collect results sources in
  let unique := take 5 (Set_of acc.1) in
  decorate acc.2 <$> unique.

Definition buildConclusion (results : list (jsstring * jsstring))
    (sources : gmap jsstring (list evidence)) : jsstring :=
  join [LF] (conclusion_lines results sources).


(** ** The outside world, and the effects of a request *)

Inductive provider := OpenAI | Mistral | Claude | Gemini.

#[global] Instance provider_eq_dec : EqDecision provider.
Proof. solve_decision. Defined.

(** [req.file] *)
Record file := File { buffer : list N; mimetype : jsstring }.

(** An entry of [data.organic_results]. *)
Record search_result := SearchResult {
  link : jsval;
  res_title : jsval;
  res_date : jsval
}.

(** What [reader.parse()] returns when it finds an article. *)
Record article := Article {
  a_title : jsval;
  a_excerpt : jsval;
  a_textContent : jsval;
  a_publishedTime : jsval
}.

(** The search request: it fails, or it gives a body whose
    [organic_results] may be missing. *)
Inductive search_reply :=
  | SearchFailed
  | SearchData (organic_results : option (list search_result)).

(** Fetching and parsing one page: the request or the parsing throws, or
    [parse] returns an article or null. *)
Inductive page_reply :=
  | PageFailed
  | PageParsed (a : option article).

(** One exchange with a completion provider: the request is rejected
    (network error, status outside 2xx); or it is answered with a body in
    which the path to the text cannot be followed, so that reading it
    throws; or the path gives a value. *)
Inductive reply :=
  | Rejected
  | Malformed
  | Content (v : jsval).

(** The world answers a request by what is asked: the query, the address of
    the page, the provider with the prompt and the file. *)
Record world := World {
  search : jsstring → search_reply;
  fetch : jsstring → page_reply;
  complete : provider → jsstring → option file → reply
}.

Inductive exn := NetworkError | TypeError | URIError.

Inductive log_entry :=
  | LogSearchError
  | LogExtractFailed (l : jsval)
  | LogApiError (name : jsstring).

Inductive event :=
  | ESearch (query : jsstring)
  | EFetch (u : jsstring)
  | EComplete (p : provider) (prompt : jsstring) (f : option file)
  | ELog (l : log_entry).

(** The state of one request: the [sources] object of the handler and the
    requests and log lines issued so far, oldest first. [Promise.all] is
    run in the order of its array. *)
Record state := State {
  sources : gmap jsstring (list evidence);
  trace : list event
}.

(** A computation that may throw. *)
Definition M (A : Type) : Type := state → (exn + A) * state.

#[global] Instance M_ret : MRet M := λ A x s, (inr x, s).
#[global] Instance M_bind : MBind M := λ A B f m s,
  match m s with
  | (inr x, s') => f x s'
  | (inl e, s') => (inl e, s')
  end.

Definition throw {A} (e : exn) : M A := λ s, (inl e, s).

(** [try { m } catch (err) { h err }] *)
Definition try_catch {A} (m : M A) (h : exn → M A) : M A := λ s,
  match m s with
  | (inr x, s') => (inr x, s')
  | (inl e, s') => h e s'
  end.

Definition emit (e : event) : M unit := λ s,
  (inr (), State (sources s) (trace s ++ [e])).

Definition get_sources : M (gmap jsstring (list evidence)) := λ s,
  (inr (sources s), s).

Definition put_sources (m : gmap jsstring (list evidence)) : M unit := λ s,
  (inr (), State m (trace s)).

(** [sources[key] = webSources] *)
Definition assign_source (key : jsstring) (webSources : list evidence) : M unit :=
  m ← get_sources; put_sources (<[key := webSources]> m).

(** [Promise.all(xs.map(f))] *)
Fixpoint for_each {A B} (f : A → M B) (xs : list A) : M (list B) :=
  match xs with
  | [] => mret []
  | x :: xs' => y ← f x; ys ← for_each f xs'; mret (y :: ys)
  end.

(** ** safe API call *)

(** The [fallback] argument: a string, or a function of the error. *)
Inductive fallback :=
  | FbString (s : jsstring)
  | FbFun (f : exn → jsstring).

(** [cleanBullets(raw, maxBullets)] on what [fn] returned: [raw.split]
    throws when [raw] is not a string. *)
Definition cleanBullets_of (raw : jsval) (maxBullets : nat) : M jsstring :=
  match raw with
  | JStr text => mret (cleanBullets text maxBullets)
  | JUndef => throw TypeError
  end.

(** What is thrown inside [fn] is an Error object, so the reads of
    [err.response] and [err.message] for the log line do not throw. *)
Definition safeCall (fn : M jsval) (fb : fallback) (name : jsstring)
    (maxBullets : nat) : M jsstring :=
  try_catch
    (raw ← fn; cleanBullets_of raw maxBullets)
    (λ err,
       emit (ELog (LogApiError name));;
       mret (match fb with FbFun f => f err | FbString s => s end)).

(** ** bullet prompt with context *)

Definition show_nat (n : nat) : jsstring :=
  js (NilEmpty.string_of_uint (Nat.to_uint n)).

Definition bulletPrompt (q context : jsstring) (count : nat) (analysis : bool)
    : jsstring :=
  let prompt :=
    js "Answer in " ++ show_nat count
    ++ js " short bullet points (max one line each). Include key facts, trends, and cite sources if provided."
    ++ [LF] in
  let prompt :=
    if analysis then
      prompt ++ js "Also identify pros/cons, differing viewpoints, or gaps if applicable." ++ [LF]
    else prompt in
  let prompt :=
    match context with
    | _ :: _ => prompt ++ js "Context from sources: " ++ context ++ [LF; LF]
    | [] => prompt
    end in
  prompt ++ js "Q: " ++ q ++ [LF] ++ js "A:".

(** ** web search and extraction helper *)

(** [encodeURIComponent] throws a URIError on a lone surrogate. *)
Definition is_high_surrogate (c : N) : bool := ((0xD800 <=? c) && (c <=? 0xDBFF))%N.
Definition is_low_surrogate (c : N) : bool := ((0xDC00 <=? c) && (c <=? 0xDFFF))%N.

Fixpoint well_formed (s : jsstring) : bool :=
  match s with
  | [] => true
  | c :: s' =>
      if is_high_surrogate c then
        match s' with
        | d :: s'' => is_low_surrogate d && well_formed s''
        | [] => false
        end
      else if is_low_surrogate c then false
      else well_formed s'
  end.

(** [article?.f] *)
Definition article_field (f : article → jsval) (a : option article) : jsval :=
  from_option f JUndef a.

(** [v?.substring(0, n)] *)
Definition opt_substring0 (n : nat) (v : jsval) : jsval :=
  match v with JStr s => JStr (substring0 n s) | JUndef => JUndef end.

(** The object literal built for a page that was fetched and parsed. *)
Definition evidence_of (res : search_result) (a : option article) : evidence :=
  {| url := link res;
     title := js_or (article_field a_title a) (res_title res);
     date := js_or (js_or (res_date res) (article_field a_publishedTime a))
                   (JStr (js "N/A"));
     excerpt := js_or (js_or (article_field a_excerpt a)
                             (opt_substring0 1000 (article_field a_textContent a)))
                      (JStr (js "No content")) |}.

(** What [res.status(...).json(...)] sends. *)
Inductive body :=
  | ErrorBody (error : jsstring)
  | AnswerBody (results : list (jsstring * jsstring)) (conclusion : jsstring)
               (srcs : list evidence).

Record response := Response { status : nat; payload : body }.

Section Request.

Variable w : world.

(** [axios.get(searchUrl)], then [data.organic_results]. *)
Definition get_search (query : jsstring) : M (option (list search_result)) :=
  if well_formed query then
    emit (ESearch query);;
    match search w query with
    | SearchFailed => throw NetworkError
    | SearchData r => mret r
    end
  else throw URIError.

(** [axios.get(res.link)], [new JSDOM], [new Readability], [parse]. *)
Definition get_article (l : jsval) : M (option article) :=
  match l with
  | JStr u =>
      emit (EFetch u);;
      match fetch w u with
      | PageFailed => throw NetworkError
      | PageParsed a => mret a
      end
  | JUndef => throw TypeError
  end.

(** The callback of [results.slice(0, 5).map(async (res) => ...)]. *)
Definition extract_page (res : search_result) : M (option evidence) :=
  try_catch
    (a ← get_article (link res); mret (Some (evidence_of res a)))
    (λ e, emit (ELog (LogExtractFailed (link res)));; mret None).

Definition performWebSearch (query : jsstring) : M (list evidence) :=
  try_catch
    (organic ← get_search query;
     let results := default [] organic in
     extracted ← for_each extract_page (take 5 results);
     mret (omap id extracted))
    (λ err, emit (ELog LogSearchError);; mret []).

(** ** SINGLE ENDPOINT *)

(** [req.body.question?.trim?.()], or the empty string when that is
    falsy: a value without a [trim] method gives the empty string. *)
Definition question_of (q : jsval) : jsstring :=
  match q with JStr s => trim s | JUndef => [] end.

(** One line of the context: [s.excerpt.substring] throws when the excerpt
    is not a string. *)
Definition context_line (s : evidence) : M jsstring :=
  match excerpt s with
  | JStr x =>
      mret (js "Source: " ++ to_str (title s) ++ js " (" ++ to_str (url s)
            ++ js ", " ++ to_str (date s) ++ js "): " ++ substring0 500 x)
  | JUndef => throw TypeError
  end.

Definition context_of (webSources : list evidence) : M jsstring :=
  ls ← for_each context_line webSources; mret (join [LF] ls).

Definition key (p : provider) : jsstring :=
  match p with
  | OpenAI => js "openai"
  | Mistral => js "mistral"
  | Claude => js "claude"
  | Gemini => js "gemini"
  end.

Definition display_name (p : provider) : jsstring :=
  match p with
  | OpenAI => js "OpenAI"
  | Mistral => js "Mistral"
  | Claude => js "Claude"
  | Gemini => js "Gemini"
  end.

Definition error_from (p : provider) : jsstring := js "Error from " ++ display_name p.

(** The function handed to [safeCall] in the text flow: post the prompt,
    associate the sources with the provider, then read the text out of the
    body. *)
Definition text_request (p : provider) (question context : jsstring)
    (webSources : list evidence) : M jsval :=
  emit (EComplete p (bulletPrompt question context 8 true) None);;
  match complete w p (bulletPrompt question context 8 true) None with
  | Rejected => throw NetworkError
  | Malformed => assign_source (key p) webSources;; throw TypeError
  | Content v => assign_source (key p) webSources;; mret v
  end.

(** The function handed to [safeCall] in the file flow: the text is read
    with optional chaining and has a default. *)
Definition file_request (f : file) (fileQuery context : jsstring)
    (webSources : list evidence) : M jsval :=
  emit (EComplete Gemini (bulletPrompt fileQuery context 8 true) (Some f));;
  match complete w Gemini (bulletPrompt fileQuery context 8 true) (Some f) with
  | Rejected => throw NetworkError
  | Malformed => assign_source (key Gemini) webSources;; throw TypeError
  | Content v =>
      assign_source (key Gemini) webSources;;
      mret (js_or v (JStr (js "No response from Gemini")))
  end.

Definition call (p : provider) (fn : M jsval) : M jsstring :=
  safeCall fn (FbString (error_from p)) (display_name p) 8.

Definition file_flow (question : jsstring) (f : file) : M response :=
  let fileQuery :=
    match question with
    | _ :: _ => question
    | [] => js "Describe the uploaded file."
    end in
  webSources ← performWebSearch fileQuery;
  context ← context_of webSources;
  gemini ← call Gemini (file_request f fileQuery context webSources);
  srcs ← get_sources;
  mret (Response 200
          (AnswerBody [(key Gemini, gemini)]
                      (buildConclusion [(key Gemini, gemini)] srcs)
                      webSources)).

Definition text_flow (question : jsstring) : M response :=
  match question with
  | [] => mret (Response 400 (ErrorBody (js "Question cannot be empty")))
  | _ :: _ =>
      webSources ← performWebSearch question;
      context ← context_of webSources;
      openai ← call OpenAI (text_request OpenAI question context webSources);
      mistral ← call Mistral (text_request Mistral question context webSources);
      claude ← call Claude (text_request Claude question context webSources);
      gemini ← call Gemini (text_request Gemini question context webSources);
      let results :=
        [(key OpenAI, openai); (key Mistral, mistral); (key Claude, claude);
         (key Gemini, gemini)] in
      srcs ← get_sources;
      mret (Response 200
              (AnswerBody results (buildConclusion results srcs) webSources))
  end.

(** [app.post("/ask", upload.single("file"), async (req, res) => ...)] *)
Definition ask (req_question : jsval) (req_file : option file) : M response :=
  let question := question_of req_question in
  put_sources ∅;;
  match req_file with
  | Some f => file_flow question f
  | None => text_flow question
  end.

End Request.


(** ** Notions used to state the properties *)

(** The lines of a text made by [join]: the empty text has none. *)
Definition output_lines (out : jsstring) : list jsstring :=
  match out with
  | [] => []
  | _ :: _ => split LF out
  end.

(** The sequence the specification describes for the aggregator: every
    element kept at its first occurrence, later copies dropped. *)
Fixpoint first_occurrences (l : list jsstring) : list jsstring :=
  match l with
  | [] => []
  | x :: l' => x :: filter (λ y, y ≠ x) (first_occurrences l')
  end.

(** All providers' bullets, in provider order then in-provider order. *)
Definition all_bullets (results : list (jsstring * jsstring)) : list jsstring :=
  results ≫= λ entry, conclusion_bullets entry.2.

(** What the specification claims an evidence record holds: the extracted
    title and date first, then those of the search result, then N/A. *)
Definition claimed_evidence (res : search_result) (a : option article)
    : evidence :=
  {| url := link res;
     title := js_or (js_or (article_field a_title a) (res_title res))
                    (JStr (js "N/A"));
     date := js_or (js_or (article_field a_publishedTime a) (res_date res))
                   (JStr (js "N/A"));
     excerpt := js_or (js_or (article_field a_excerpt a)
                             (opt_substring0 1000 (article_field a_textContent a)))
                      (JStr (js "No content")) |}.

(** The names of the own properties of an evidence record. *)
Definition evidence_keys : list jsstring :=
  js <$> [ "url"; "title"; "date"; "excerpt" ]%string.

(** A bullet text that is the name of no property that [citationsMap] can
    inherit. *)
Definition plain_key (b : jsstring) : Prop :=
  (b ∉ object_prototype_keys) ∧ (b ∉ evidence_keys).

(** The writes to [citationsMap], in the order [buildConclusion] makes
    them: per provider, the bullets that have an evidence record at their
    index. *)
Definition writes_of (srcs : option (list evidence)) (bs : list jsstring)
    : list (jsstring * evidence) :=
  omap (λ ib, (λ e, (ib.2, e)) <$> (srcs ≫= (.!! ib.1))) (imap pair bs).

Definition writes (results : list (jsstring * jsstring))
    (sources : gmap jsstring (list evidence)) : list (jsstring * evidence) :=
  results ≫= λ entry, writes_of (sources !! entry.1) (conclusion_bullets entry.2).

Definition apply_writes (cm : citations) (ws : list (jsstring * evidence))
    : citations :=
  foldl (λ cm w, cit_set w.1 w.2 cm) cm ws.

(** The requests of a run, read off the world: what each computation
    returns and which events it adds. *)
Section Runs.

Variable w : world.

Definition page_outcome (res : search_result) : option evidence :=
  match link res with
  | JStr u =>
      match fetch w u with
      | PageParsed a => Some (evidence_of res a)
      | PageFailed => None
      end
  | JUndef => None
  end.

Definition page_events (res : search_result) : list event :=
  match link res with
  | JStr u =>
      EFetch u ::
      match fetch w u with
      | PageParsed a => []
      | PageFailed => [ELog (LogExtractFailed (link res))]
      end
  | JUndef => [ELog (LogExtractFailed (link res))]
  end.

Definition first_results (query : jsstring) : list search_result :=
  match search w query with
  | SearchData r => take 5 (default [] r)
  | SearchFailed => []
  end.

Definition found (query : jsstring) : list evidence :=
  if well_formed query then omap page_outcome (first_results query) else [].

Definition search_events (query : jsstring) : list event :=
  if well_formed query then
    ESearch query ::
    match search w query with
    | SearchData r => first_results query ≫= page_events
    | SearchFailed => [ELog LogSearchError]
    end
  else [ELog LogSearchError].

Definition context_line_text (s : evidence) : jsstring :=
  js "Source: " ++ to_str (title s) ++ js " (" ++ to_str (url s)
  ++ js ", " ++ to_str (date s) ++ js "): "
  ++ substring0 500 (to_str (excerpt s)).

Definition context_text (webSources : list evidence) : jsstring :=
  join [LF] (context_line_text <$> webSources).

(** The entry of [results] for a provider, by the reply it got. *)
Definition result_of (p : provider) (r : reply) : jsstring :=
  match r with
  | Content (JStr raw) => cleanBullets raw 8
  | _ => error_from p
  end.

Definition assigned (r : reply) : bool :=
  match r with Rejected => false | _ => true end.

Definition failed (r : reply) : bool :=
  match r with Content (JStr _) => false | _ => true end.

(** The entry of [results] in the file flow. *)
Definition file_result (r : reply) : jsstring :=
  match r with
  | Content v =>
      match js_or v (JStr (js "No response from Gemini")) with
      | JStr raw => cleanBullets raw 8
      | JUndef => error_from Gemini
      end
  | _ => error_from Gemini
  end.

Definition file_failed (r : reply) : bool :=
  match r with Content _ => false | _ => true end.

(** The state after the call of the provider in the file flow. *)
Definition after_file_call (f : file) (prompt : jsstring)
    (webSources : list evidence) (s : state) : state :=
  let r := complete w Gemini prompt (Some f) in
  State (if assigned r then <[key Gemini := webSources]> (sources s) else sources s)
        (trace s ++ EComplete Gemini prompt (Some f) ::
           if file_failed r then [ELog (LogApiError (display_name Gemini))] else []).

(** The state after the call of a provider in the text flow. *)
Definition after_call (p : provider) (prompt : jsstring)
    (webSources : list evidence) (s : state) : state :=
  let r := complete w p prompt None in
  State (if assigned r then <[key p := webSources]> (sources s) else sources s)
        (trace s ++ EComplete p prompt None ::
           if failed r then [ELog (LogApiError (display_name p))] else []).

End Runs.

(** A search result with a date, whose page gives an article with another
    date. *)
Definition cex_result : search_result :=
  SearchResult (JStr (js "https://example.org/a")) (JStr (js "Result title"))
               (JStr (js "2 days ago")).

Definition cex_article : article :=
  Article (JStr (js "Article title")) (JStr (js "Summary")) (JStr (js "Body"))
          (JStr (js "2024-01-01")).

Definition cex_world : world :=
  World (λ _, SearchData (Some [cex_result]))
        (λ _, PageParsed (Some cex_article))
        (λ _ _ _, Rejected).

(** A world in which one provider rejects every request. *)
Definition half_world : world :=
  World (λ _, SearchData (Some [cex_result]))
        (λ _, PageParsed (Some cex_article))
        (λ p _ _,
           match p with
           | OpenAI => Rejected
           | _ => Content (JStr (js "* Paris is the capital of France"))
           end).

(** A world without search results in which every provider lists two
    methods that every object has. *)
Definition methods_world : world :=
  World (λ _, SearchData None)
        (λ _, PageFailed)
        (λ _ _ _, Content (JStr (js "* `toString`" ++ [LF] ++ js "* `valueOf`"))).

(** A world in which one provider answers with a body that cannot be
    read. *)
Definition malformed_world : world :=
  World (λ _, SearchData (Some [cex_result]))
        (λ _, PageParsed (Some cex_article))
        (λ p _ _,
           match p with
           | OpenAI => Malformed
           | _ => Content (JStr (js "* Paris is the capital of France"))
           end).

(** A world in which one provider rejects every request and another one
    answers with the fallback text of the first. *)
Definition echo_world : world :=
  World (λ _, SearchData (Some [cex_result]))
        (λ _, PageParsed (Some cex_article))
        (λ p _ _,
           match p with
           | OpenAI => Rejected
           | Mistral => Content (JStr (js "- Error from OpenAI"))
           | _ => Content (JStr (js "* Paris is the capital of France"))
           end).

(** The conclusion of an answer. *)
Definition conclusion_of (out : (exn + response) * state) : option jsstring :=
  match out.1 with
  | inr (Response _ (AnswerBody _ c _)) => Some c
  | _ => None
  end.

(** Kinds of events, to count the requests of a run. *)
Definition is_search (e : event) : bool :=
  match e with ESearch _ => true | _ => false end.
Definition is_fetch (e : event) : bool :=
  match e with EFetch _ => true | _ => false end.
Definition is_complete (e : event) : bool :=
  match e with EComplete _ _ _ => true | _ => false end.

(** The value that the [catch] block of [safeCall] returns. *)
Definition fallback_value (fb : fallback) (err : exn) : jsstring :=
  match fb with FbFun f => f err | FbString s => s end.

(** The page of a search result was fetched and parsed. *)
Definition page_parsed (w : world) (res : search_result) : bool :=
  match link res with
  | JStr u => match fetch w u with PageParsed _ => true | PageFailed => false end
  | JUndef => false
  end.

(** The query of the file flow. *)
Definition file_query (question : jsstring) : jsstring :=
  match question with
  | _ :: _ => question
  | [] => js "Describe the uploaded file."
  end.

(** The events of the call of a provider, by the reply it gets. *)
Definition text_call_events (w : world) (prompt : jsstring) (p : provider)
    : list event :=
  EComplete p prompt None ::
  if failed (complete w p prompt None)
  then [ELog (LogApiError (display_name p))] else [].

Definition file_call_events (w : world) (f : file) (prompt : jsstring)
    : list event :=
  EComplete Gemini prompt (Some f) ::
  if file_failed (complete w Gemini prompt (Some f))
  then [ELog (LogApiError (display_name Gemini))] else [].

(** The prompt of a request, and the events of its two flows. *)
Definition prompt_of (w : world) (query : jsstring) : jsstring :=
  bulletPrompt query (context_text (found w query)) 8 true.

Definition text_events (w : world) (question : jsstring) : list event :=
  search_events w question
  ++ ([OpenAI; Mistral; Claude; Gemini]
        ≫= text_call_events w (prompt_of w question)).

Definition file_events (w : world) (f : file) (fileQuery : jsstring)
    : list event :=
  search_events w fileQuery ++ file_call_events w f (prompt_of w fileQuery).

(** A world without a working search. *)
Definition offline_world : world :=
  World (λ _, SearchFailed) (λ _, PageFailed)
        (λ _ _ _, Content (JStr (js "* Paris is the capital of France"))).

(** Every evidence record that [citationsMap] holds, as an own property or
    as its prototype, satisfies [P]. *)
Definition records_in (P : evidence → Prop) (cm : citations) : Prop :=
  (∀ k e, own cm !! k = Some e → P e) ∧ (∀ e, proto cm = Some e → P e).

(** No line break in the title, the url or the date of a record. *)
Definition one_line (e : evidence) : Prop :=
  (LF ∉ to_str (title e)) ∧ (LF ∉ to_str (url e)) ∧ (LF ∉ to_str (date e)).

(** Five bullets, and an evidence record whose title has a line break. *)
Definition five_bullets : jsstring :=
  js "- first point" ++ [LF] ++ js "- second point" ++ [LF]
  ++ js "- third point" ++ [LF] ++ js "- fourth point" ++ [LF]
  ++ js "- fifth point".

Definition headline : evidence :=
  Evidence (JStr (js "https://example.org/a"))
           (JStr (js "Breaking" ++ [LF] ++ js "News")) JUndef
           (JStr (js "Summary")).

Definition headline_world : world :=
  World (λ _, SearchData (Some [cex_result]))
        (λ _, PageParsed
                (Some (Article (JStr (js "Breaking" ++ [LF] ++ js "News"))
                               (JStr (js "Summary")) (JStr (js "Body")) JUndef)))
        (λ _ _ _, Content (JStr five_bullets)).

(** What [req.body.question] can be for the first line of the handler:
    a string, or a value that has no [trim] property, or nothing, which
    [question_of] reads; or a value whose [trim] property is there and is
    no function, such as the question of the JSON body
    [{"question": {"trim": 1}}], on which the optional call throws. *)
Inductive question_field :=
  | QValue (v : jsval)
  | QUncallableTrim.

(** The handler from its first line: reading the question may throw, before
    anything else is done. *)
Definition handle (w : world) (question : question_field)
    (req_file : option file) : M response :=
  match question with
  | QValue v => ask w v req_file
  | QUncallableTrim => throw TypeError
  end.

(** * Properties *)

(** ** Strings *)

Lemma Forall_drop_while (P : N → Prop) p s :
  Forall P s → Forall P (drop_while p s).
Proof.
  induction 1 as [|c s Hc Hs IH]; simpl; [constructor|].
  destruct (p c); [exact IH | by constructor].
Qed.

Lemma Forall_trimEnd (P : N → Prop) s : Forall P s → Forall P (trimEnd s).
Proof.
  induction 1 as [|c s Hc Hs IH]; simpl; [constructor|].
  destruct (trimEnd s) as [|d r].
  - destruct (is_space c); repeat constructor; done.
  - by constructor.
Qed.

Lemma Forall_trim (P : N → Prop) s : Forall P s → Forall P (trim s).
Proof. intros H. by apply Forall_trimEnd, Forall_drop_while. Qed.

Lemma Forall_remove_all (P : N → Prop) p s :
  Forall P s → Forall P (remove_all p s).
Proof.
  induction 1 as [|c s Hc Hs IH]; simpl; [constructor|].
  destruct (p c); simpl; [exact IH | by constructor].
Qed.

Lemma drop_while_head p s c : head (drop_while p s) = Some c → p c = false.
Proof.
  induction s as [|d s IH]; simpl; [done|].
  destruct (p d) eqn:Hd; [exact IH|]. simpl. congruence.
Qed.

Lemma drop_while_id p s :
  (∀ c, head s = Some c → p c = false) → drop_while p s = s.
Proof.
  destruct s as [|c s]; simpl; [done|]. intros H. by rewrite (H c).
Qed.

Lemma trimEnd_head s c :
  head s = Some c → is_space c = false → head (trimEnd s) = Some c.
Proof.
  destruct s as [|d s]; simpl; [done|]. intros [= ->] Hc.
  destruct (trimEnd s); [by rewrite Hc | done].
Qed.

Lemma trimEnd_idemp s : trimEnd (trimEnd s) = trimEnd s.
Proof.
  induction s as [|c s IH]; simpl; [done|].
  destruct (trimEnd s) as [|d r] eqn:E.
  - destruct (is_space c) eqn:Hc; simpl; [done | by rewrite Hc].
  - change (trimEnd (c :: d :: r)) with
      (match trimEnd (d :: r) with
       | [] => if is_space c then [] else [c]
       | x => c :: x
       end).
    by rewrite IH.
Qed.

(** A trimmed string starts with no white space. *)
Lemma trim_head s c : head (trim s) = Some c → is_space c = false.
Proof.
  unfold trim, trimStart. intros H.
  destruct (drop_while is_space s) as [|d t] eqn:E; [done|].
  assert (Hd : is_space d = false).
  { apply (drop_while_head is_space s). by rewrite E. }
  rewrite (trimEnd_head (d :: t) d) in H; [|done..]. congruence.
Qed.

Lemma trim_idemp s : trim (trim s) = trim s.
Proof.
  unfold trim at 1. unfold trimStart.
  rewrite drop_while_id; [|apply trim_head].
  unfold trim. apply trimEnd_idemp.
Qed.

Lemma remove_all_id p s :
  Forall (λ c, p c = false) s → remove_all p s = s.
Proof.
  induction 1 as [|c s Hc Hs IH]; simpl; [done|]. by rewrite Hc, IH.
Qed.

Lemma remove_all_clean p s : Forall (λ c, p c = false) (remove_all p s).
Proof.
  induction s as [|c s IH]; simpl; [constructor|].
  destruct (p c) eqn:Hc; simpl; [done | by constructor].
Qed.

(** ** [split] and [join] *)

Lemma split_nonempty sep s : split sep s ≠ [].
Proof.
  destruct s as [|c s]; simpl; [done|].
  destruct (c =? sep)%N; [done|]. by destruct (split sep s).
Qed.

Lemma split_no_sep sep s : Forall (λ l, sep ∉ l) (split sep s).
Proof.
  induction s as [|c s IH]; simpl.
  - repeat constructor. apply not_elem_of_nil.
  - destruct (N.eqb_spec c sep) as [->|Hne].
    + constructor; [apply not_elem_of_nil | done].
    + destruct (split sep s) as [|l ls].
      * constructor; [|done]. intros H%list_elem_of_singleton. congruence.
      * inversion IH as [|? ? Hl Hls]; subst. constructor; [|done].
        apply not_elem_of_cons. split; [congruence | done].
Qed.

Lemma split_app_sep sep l rest :
  sep ∉ l → split sep (l ++ sep :: rest) = l :: split sep rest.
Proof.
  induction l as [|c l IH]; simpl; intros Hl.
  - by rewrite N.eqb_refl.
  - apply not_elem_of_cons in Hl as [Hc Hl].
    destruct (N.eqb_spec c sep) as [->|Hne]; [done|].
    by rewrite IH.
Qed.

Lemma split_one sep l : sep ∉ l → split sep l = [l].
Proof.
  induction l as [|c l IH]; simpl; intros Hl; [done|].
  apply not_elem_of_cons in Hl as [Hc Hl].
  destruct (N.eqb_spec c sep) as [->|Hne]; [done|].
  by rewrite IH.
Qed.

Lemma split_join sep ls :
  ls ≠ [] → Forall (λ l, sep ∉ l) ls → split sep (join [sep] ls) = ls.
Proof.
  intros Hne H. induction H as [|l ls Hl Hls IH]; [done|].
  destruct ls as [|l' ls'].
  - simpl. by apply split_one.
  - change (join [sep] (l :: l' :: ls')) with (l ++ sep :: join [sep] (l' :: ls')).
    rewrite split_app_sep by done. f_equal. by apply IH.
Qed.

(** ** The helpers on sample texts *)

Example split_sample :
  split LF (js "a" ++ [LF] ++ js "b" ++ [LF]) = [js "a"; js "b"; []].
Proof. reflexivity. Qed.

Example trim_sample : trim (js "  a b  " ++ [LF]) = js "a b".
Proof. reflexivity. Qed.

Example cleanBullets_sample :
  cleanBullets (js "# Capital" ++ [LF] ++ js "* **Paris** is the capital"
                ++ [LF] ++ js "- ok" ++ [LF] ++ [LF] ++ js "1. `code`") 8
  = js "- Capital" ++ [LF] ++ js "- Paris is the capital" ++ [LF]
    ++ js "- 1. code".
Proof. vm_compute. reflexivity. Qed.

Example cleanBullets_sample_max :
  cleanBullets (js "* first" ++ [LF] ++ js "* second" ++ [LF] ++ js "* third") 2
  = js "- first" ++ [LF] ++ js "- second".
Proof. vm_compute. reflexivity. Qed.

Example buildConclusion_sample :
  buildConclusion
    [(js "openai", js "- Paris is the capital" ++ [LF] ++ js "- It lies on the Seine");
     (js "gemini", js "- Paris is the capital")]
    {[ js "openai" :=
         [Evidence (JStr (js "https://example.org/a")) (JStr (js "Paris")) JUndef
                   (JStr (js "No content"))] ]}
  = js "- Paris is the capital [Paris](https://example.org/a) (N/A)" ++ [LF]
    ++ js "- It lies on the Seine".
Proof. vm_compute. reflexivity. Qed.

Example bulletPrompt_sample :
  bulletPrompt (js "Why?") [] 8 false
  = js "Answer in 8 short bullet points (max one line each). Include key facts, trends, and cite sources if provided."
    ++ [LF] ++ js "Q: Why?" ++ [LF] ++ js "A:".
Proof. vm_compute. reflexivity. Qed.

(** ** The bullet normalizer *)

Lemma bullet_no_LF t : LF ∉ t → LF ∉ bullet t.
Proof.
  intros Ht. unfold bullet. rewrite elem_of_app. intros [H|H]; [|done].
  apply elem_of_cons in H as [H|H]; [discriminate H|].
  apply list_elem_of_singleton in H. discriminate H.
Qed.

Lemma strip_markers_no_LF l : LF ∉ l → LF ∉ strip_markers l.
Proof.
  intros Hl. unfold strip_markers.
  assert (H : Forall (λ c, c ≠ LF) l).
  { apply Forall_forall. intros c Hc ->. done. }
  apply (Forall_drop_while _ is_lead_marker) in H.
  apply (Forall_remove_all _ is_inline_marker) in H.
  apply Forall_trim in H. rewrite Forall_forall in H.
  intros Hin. by apply (H LF).
Qed.

(** Every element of the array of [cleanBullets] is the stripped form of a
    line of the text and has more than three code units. *)
Lemma bullets_spec text max t :
  t ∈ bullets text max →
  3 < length t ∧ ∃ l, l ∈ split LF text ∧ t = strip_markers l.
Proof.
  unfold bullets. intros Ht.
  apply (subseteq_take max) in Ht.
  apply list_elem_of_filter in Ht as [Hlen Ht].
  apply list_elem_of_fmap in Ht as (l & -> & Hl). eauto.
Qed.

Lemma bullets_length text max : length (bullets text max) ≤ max.
Proof. unfold bullets. rewrite length_take. lia. Qed.

Lemma bullets_no_LF text max : Forall (λ t, LF ∉ t) (bullets text max).
Proof.
  apply Forall_forall. intros t Ht.
  apply bullets_spec in Ht as (_ & l & Hl & ->).
  apply strip_markers_no_LF.
  by apply (proj1 (Forall_forall _ _) (split_no_sep LF text)).
Qed.

Lemma output_lines_join ts :
  Forall (λ t, LF ∉ t) ts →
  output_lines (join [LF] (bullet <$> ts)) = bullet <$> ts.
Proof.
  intros H. destruct ts as [|t ts]; [done|].
  assert (E : ∃ c r, join [LF] (bullet <$> t :: ts) = c :: r).
  { destruct ts; simpl; eauto. }
  destruct E as (c & r & E). unfold output_lines. rewrite E, <- E.
  apply split_join; [done|].
  apply Forall_fmap. eapply Forall_impl; [exact H|].
  intros x Hx. by apply bullet_no_LF.
Qed.

Lemma output_lines_cleanBullets text max :
  output_lines (cleanBullets text max) = bullet <$> bullets text max.
Proof. apply output_lines_join, bullets_no_LF. Qed.

(** C4. For every text and every maximum, the output of [cleanBullets] has
    at most [max] lines; every line is the uniform marker (a dash and a
    space) followed by a text; that text is what stripping the markers and
    trimming made of a line of the input, and it has more than three code
    units. *)
Theorem cleanBullets_bounded_marked (text : jsstring) (max : nat) :
  length (output_lines (cleanBullets text max)) ≤ max ∧
  Forall (λ line, ∃ t, line = js "- " ++ t ∧ 3 < length t ∧
                       ∃ l, l ∈ split LF text ∧ t = strip_markers l)
         (output_lines (cleanBullets text max)).
Proof.
  rewrite output_lines_cleanBullets. split.
  - rewrite length_fmap. apply bullets_length.
  - apply Forall_fmap, Forall_forall. intros t Ht. exists t.
    split; [done|]. by apply bullets_spec in Ht.
Qed.

(** What [strip_markers] leaves: no inline marker, nothing to trim, and a
    first code unit that is no marker of the leading class except a dash. *)
Lemma strip_markers_inline l :
  Forall (λ c, is_inline_marker c = false) (strip_markers l).
Proof. apply Forall_trim, remove_all_clean. Qed.

Lemma strip_markers_trimmed l : trim (strip_markers l) = strip_markers l.
Proof. apply trim_idemp. Qed.

Lemma strip_markers_head l c :
  head (strip_markers l) = Some c → c ≠ dash → is_lead_marker c = false.
Proof.
  intros Hc Hd.
  pose proof (trim_head _ _ Hc) as Hs.
  pose proof (strip_markers_inline l) as Hi.
  destruct (strip_markers l) as [|d r]; [done|]. simpl in Hc. injection Hc as ->.
  inversion Hi as [|? ? Hic _]; subst.
  unfold is_lead_marker. unfold is_inline_marker in Hic.
  rewrite Hs. apply orb_false_elim in Hic as [Hic _].
  apply orb_false_elim in Hic as [H1 H2]. rewrite H1, H2.
  apply N.eqb_neq in Hd. by rewrite Hd.
Qed.

(** A line of the output whose text does not start with a dash is read
    back as that text. *)
Lemma strip_markers_bullet l :
  head (strip_markers l) ≠ Some dash →
  strip_markers (bullet (strip_markers l)) = strip_markers l.
Proof.
  intros Hd. set (t := strip_markers l) in *.
  unfold strip_markers at 1. unfold bullet.
  change (drop_while is_lead_marker (js "- " ++ t))
    with (drop_while is_lead_marker t).
  rewrite drop_while_id.
  - rewrite remove_all_id by apply strip_markers_inline.
    apply strip_markers_trimmed.
  - intros c Hc. apply (strip_markers_head l c Hc). congruence.
Qed.

Lemma bullets_again text max :
  Forall (λ t, head t ≠ Some dash) (bullets text max) →
  bullets (cleanBullets text max) max = bullets text max.
Proof.
  intros Hd. unfold bullets at 1.
  assert (E : filter (λ l, 3 < length l)
                (strip_markers <$> split LF (cleanBullets text max))
              = bullets text max).
  { pose proof (output_lines_cleanBullets text max) as Ho.
    unfold output_lines in Ho.
    destruct (cleanBullets text max) as [|c r] eqn:Ec.
    - symmetry in Ho. apply fmap_nil_inv in Ho. by rewrite Ho.
    - rewrite Ho, <- list_fmap_compose.
      assert (Hall : Forall (λ t, (strip_markers ∘ bullet) t = t ∧ 3 < length t)
                       (bullets text max)).
      { apply Forall_forall. intros t Ht.
        pose proof (proj1 (Forall_forall _ _) Hd t Ht) as Hdt.
        apply bullets_spec in Ht as (Hlen & l & _ & ->).
        split; [by apply strip_markers_bullet | done]. }
      clear -Hall. induction Hall as [|t ts [Ht Hl] _ IH]; [done|].
      rewrite fmap_cons, Ht, filter_cons_True by done. by rewrite IH. }
  rewrite E. apply take_ge, bullets_length.
Qed.

(** C8, as the specification states it, fails: a line that starts with a
    backtick keeps the dash that follows it, and the second pass strips that
    dash as a list marker. *)
Lemma cleanBullets_not_idempotent :
  cleanBullets (cleanBullets (js "`- abcd") 8) 8 ≠ cleanBullets (js "`- abcd") 8.
Proof. vm_compute. discriminate. Qed.

(** C8, amended. When no text kept by [cleanBullets] starts with a dash,
    applying [cleanBullets] with the same maximum to its own output gives
    that output again. *)
Theorem cleanBullets_idempotent_no_dash (text : jsstring) (max : nat) :
  Forall (λ t, head t ≠ Some dash) (bullets text max) →
  cleanBullets (cleanBullets text max) max = cleanBullets text max.
Proof.
  intros Hd. unfold cleanBullets at 1. by rewrite bullets_again.
Qed.

Lemma cleanBullets_idempotent_no_dash_witness :
  Forall (λ t, head t ≠ Some dash)
         (bullets (js "* first point" ++ [LF] ++ js "## second point") 8) ∧
  cleanBullets
    (cleanBullets (js "* first point" ++ [LF] ++ js "## second point") 8) 8
  = cleanBullets (js "* first point" ++ [LF] ++ js "## second point") 8.
Proof.
  split.
  - vm_compute. repeat constructor; discriminate.
  - apply (cleanBullets_idempotent_no_dash
             (js "* first point" ++ [LF] ++ js "## second point") 8).
    vm_compute. repeat constructor; discriminate.
Defined.

(** The dash can only come from behind a backtick: a text without a
    backtick is normalized to a fixed point of [cleanBullets]. *)
Lemma remove_all_head p c s :
  p c = false → head (remove_all p (c :: s)) = Some c.
Proof. intros H. simpl. by rewrite H. Qed.

Lemma strip_markers_head_no_backtick l :
  backtick ∉ l → head (strip_markers l) ≠ Some dash.
Proof.
  intros Hb. unfold strip_markers, trim, trimStart.
  destruct (drop_while is_lead_marker l) as [|c r] eqn:E; [done|].
  assert (Hc : is_lead_marker c = false).
  { apply (drop_while_head is_lead_marker l). by rewrite E. }
  assert (Hin : c ∈ l).
  { assert (H : Forall (λ x, x ∈ l) (drop_while is_lead_marker l)).
    { apply Forall_drop_while, Forall_forall. auto. }
    rewrite E in H. by inversion H. }
  unfold is_lead_marker in Hc.
  apply orb_false_elim in Hc as [Hc Hs].
  apply orb_false_elim in Hc as [Hc H3].
  apply orb_false_elim in Hc as [H1 H2].
  assert (Hi : is_inline_marker c = false).
  { unfold is_inline_marker. rewrite H1, H3. simpl.
    apply N.eqb_neq. intros ->. done. }
  simpl. rewrite Hi. simpl. rewrite Hs.
  rewrite (trimEnd_head _ c) by done.
  apply N.eqb_neq in H2. congruence.
Qed.

Lemma cleanBullets_idempotent_no_backtick text max :
  backtick ∉ text →
  cleanBullets (cleanBullets text max) max = cleanBullets text max.
Proof.
  intros Hb. unfold cleanBullets at 1. rewrite bullets_again; [done|].
  apply Forall_forall. intros t Ht. apply bullets_spec in Ht as (_ & l & Hl & ->).
  apply strip_markers_head_no_backtick. intros Hin. apply Hb.
  clear -Hl Hin. revert l Hl Hin.
  induction text as [|c s IH]; simpl; intros l Hl Hin.
  - apply list_elem_of_singleton in Hl as ->. done.
  - destruct (c =? LF)%N.
    + apply elem_of_cons in Hl as [->|Hl]; [by apply elem_of_nil in Hin|].
      right. by apply (IH l).
    + destruct (split LF s) as [|l0 ls] eqn:E.
      * apply list_elem_of_singleton in Hl as ->.
        apply list_elem_of_singleton in Hin as ->. left.
      * apply elem_of_cons in Hl as [->|Hl].
        -- apply elem_of_cons in Hin as [->|Hin]; [left|].
           right. apply (IH l0); [left | done].
        -- right. apply (IH l); [by right | done].
Qed.

(** ** The aggregator: lines *)

Lemma foldl_visit_bullet_lines srcs acc ibs :
  (foldl (visit_bullet srcs) acc ibs).1 = acc.1 ++ ibs.*2.
Proof.
  revert acc. induction ibs as [|ib ibs IH]; intros acc; simpl.
  - by rewrite app_nil_r.
  - rewrite IH. simpl. by rewrite <- app_assoc.
Qed.

Lemma imap_pair_snd {A} (l : list A) : (imap pair l).*2 = l.
Proof.
  rewrite fmap_imap. rewrite <- (imap_ext (λ _ x, x)); [|done].
  induction l as [|x l IH]; [done|]. rewrite imap_cons. f_equal.
  etrans; [|exact IH]. by apply imap_ext.
Qed.

Lemma visit_entry_lines sources acc entry :
  (visit_entry sources acc entry).1 = acc.1 ++ conclusion_bullets entry.2.
Proof.
  unfold visit_entry. by rewrite foldl_visit_bullet_lines, imap_pair_snd.
Qed.

Lemma foldl_visit_entry_lines sources acc results :
  (foldl (visit_entry sources) acc results).1 = acc.1 ++ all_bullets results.
Proof.
  revert acc. induction results as [|entry results IH]; intros acc; simpl.
  - by rewrite app_nil_r.
  - rewrite IH, visit_entry_lines. unfold all_bullets.
    by rewrite <- app_assoc.
Qed.

(** The array [lines] of [buildConclusion] is the concatenation of the
    providers' bullets; the sources play no part in it. *)
Lemma collect_lines results sources :
  (collect results sources).1 = all_bullets results.
Proof. unfold collect. by rewrite foldl_visit_entry_lines. Qed.

(** ** [Set]: first occurrences, in order *)

Lemma foldl_Set_add acc l :
  foldl Set_add acc l = acc ++ filter (λ y, y ∉ acc) (first_occurrences l).
Proof.
  revert acc. induction l as [|x l IH]; intros acc; simpl.
  - by rewrite app_nil_r.
  - rewrite IH. unfold Set_add. destruct (decide (x ∈ acc)) as [Hx|Hx].
    + rewrite filter_cons_False by (intros H; by apply H).
      f_equal. rewrite list_filter_filter. apply list_filter_iff.
      intros y. simpl. split; [|by intros [? _]].
      intros Hy. split; [done|]. by intros ->.
    + rewrite filter_cons_True by done.
      rewrite <- app_assoc. simpl. do 2 f_equal.
      rewrite list_filter_filter. apply list_filter_iff.
      intros y. simpl. rewrite elem_of_app, list_elem_of_singleton. tauto.
Qed.

Lemma filter_all {A} (P : A → Prop) `{!∀ x, Decision (P x)} (l : list A) :
  Forall P l → filter P l = l.
Proof.
  induction 1 as [|x l Hx _ IH]; [done|].
  by rewrite filter_cons_True, IH.
Qed.

Lemma Set_of_first_occurrences l : Set_of l = first_occurrences l.
Proof.
  unfold Set_of. rewrite foldl_Set_add. simpl.
  apply filter_all, Forall_forall. intros y _. apply not_elem_of_nil.
Qed.

Lemma NoDup_first_occurrences l : NoDup (first_occurrences l).
Proof.
  induction l as [|x l IH]; simpl; constructor.
  - rewrite list_elem_of_filter. tauto.
  - by apply NoDup_filter.
Qed.

(** ** Running the requests *)

Ltac run :=
  unfold mbind, M_bind, mret, M_ret, try_catch, throw, emit, get_sources,
    put_sources, assign_source; simpl.

Section RunLemmas.

Variable w : world.

Lemma extract_page_run res s :
  extract_page w res s
  = (inr (page_outcome w res),
     State (sources s) (trace s ++ page_events w res)).
Proof.
  unfold extract_page, get_article, page_outcome, page_events.
  destruct (link res) as [|u]; run; [done|].
  destruct (fetch w u); run; [|done].
  by rewrite <- app_assoc.
Qed.

Lemma for_each_extract_page_run rs s :
  for_each (extract_page w) rs s
  = (inr (page_outcome w <$> rs),
     State (sources s) (trace s ++ (rs ≫= page_events w))).
Proof.
  revert s. induction rs as [|res rs IH]; intros s.
  - run. rewrite app_nil_r. by destruct s.
  - simpl. unfold mbind at 1, M_bind at 1. rewrite extract_page_run.
    unfold mbind at 1, M_bind at 1. rewrite IH. run.
    by rewrite <- app_assoc.
Qed.

Lemma omap_length {A B} (f : A → option B) (l : list A) :
  length (omap f l) ≤ length l.
Proof.
  induction l as [|x l IH]; [done|]. csimpl.
  destruct (f x); simpl; lia.
Qed.

Lemma omap_id_fmap {A B} (f : A → option B) (l : list A) :
  omap id (f <$> l) = omap f l.
Proof.
  induction l as [|x l IH]; [done|]. csimpl.
  destruct (f x); csimpl; by rewrite IH.
Qed.

(** [performWebSearch] always returns; it leaves [sources] alone. *)
Lemma performWebSearch_run query s :
  performWebSearch w query s
  = (inr (found w query),
     State (sources s) (trace s ++ search_events w query)).
Proof.
  unfold performWebSearch, get_search, found, search_events, first_results.
  destruct (well_formed query); [|by run].
  unfold try_catch, mbind at 1, M_bind at 1.
  unfold mbind at 1, M_bind at 1. unfold emit at 1.
  destruct (search w query) as [|r]; [run; by rewrite <- app_assoc|].
  unfold mret at 1, M_ret at 1.
  unfold mbind at 1, M_bind at 1. rewrite for_each_extract_page_run.
  run. by rewrite omap_id_fmap, <- app_assoc.
Qed.

Lemma js_or_string a b : (∃ x, b = JStr x) → ∃ x, js_or a b = JStr x.
Proof.
  intros Hb. unfold js_or. destruct a as [|[|c r]]; simpl; eauto.
Qed.

Lemma evidence_of_excerpt res a : ∃ x, excerpt (evidence_of res a) = JStr x.
Proof. simpl. apply js_or_string. eauto. Qed.

Lemma page_outcome_excerpt res e :
  page_outcome w res = Some e → ∃ x, excerpt e = JStr x.
Proof.
  unfold page_outcome. destruct (link res) as [|u]; [done|].
  destruct (fetch w u) as [|a]; [done|]. intros [= <-].
  apply evidence_of_excerpt.
Qed.

(** Every record that the retriever returns was made by [evidence_of] from
    one of the first five search results and from the article, if any, that
    was extracted from its page. *)
Lemma found_spec query e :
  e ∈ found w query →
  ∃ organic res u a,
    search w query = SearchData organic ∧
    res ∈ take 5 (default [] organic) ∧
    link res = JStr u ∧ fetch w u = PageParsed a ∧ e = evidence_of res a.
Proof.
  unfold found, first_results. destruct (well_formed query); [|by intros ?%elem_of_nil].
  destruct (search w query) as [|organic]; [by intros ?%elem_of_nil|].
  intros (res & Hres & He)%list_elem_of_omap.
  unfold page_outcome in He. destruct (link res) as [|u] eqn:El; [done|].
  destruct (fetch w u) as [|a] eqn:Ef; [done|]. injection He as <-.
  exists organic, res, u, a. by rewrite El.
Qed.

Lemma found_length query : length (found w query) ≤ 5.
Proof.
  unfold found, first_results. destruct (well_formed query); [|simpl; lia].
  destruct (search w query) as [|organic]; [simpl; lia|].
  etrans; [apply omap_length|]. rewrite length_take. lia.
Qed.

Lemma found_excerpts query :
  Forall (λ e, ∃ x, excerpt e = JStr x) (found w query).
Proof.
  apply Forall_forall. intros e (organic & res & u & a & _ & _ & _ & _ & ->)%found_spec.
  apply evidence_of_excerpt.
Qed.

Lemma context_line_run e s :
  (∃ x, excerpt e = JStr x) →
  context_line e s = (inr (context_line_text e), s).
Proof.
  intros [x Hx]. unfold context_line, context_line_text. by rewrite Hx.
Qed.

Lemma for_each_context_line_run ws s :
  Forall (λ e, ∃ x, excerpt e = JStr x) ws →
  for_each context_line ws s = (inr (context_line_text <$> ws), s).
Proof.
  induction 1 as [|e ws He _ IH]; [done|]. simpl.
  unfold mbind at 1, M_bind at 1. rewrite context_line_run by done.
  unfold mbind at 1, M_bind at 1. by rewrite IH.
Qed.

(** Building the context never throws on what the retriever returned. *)
Lemma context_of_run ws s :
  Forall (λ e, ∃ x, excerpt e = JStr x) ws →
  context_of ws s = (inr (context_text ws), s).
Proof.
  intros H. unfold context_of, mbind, M_bind.
  by rewrite for_each_context_line_run.
Qed.

#[local] Arguments cleanBullets : simpl never.
#[local] Arguments bulletPrompt : simpl never.
#[local] Arguments buildConclusion : simpl never.
#[local] Arguments key : simpl never.
#[local] Arguments display_name : simpl never.
#[local] Arguments error_from : simpl never.

(** A throwing request function makes [safeCall] return the fallback. *)
Lemma safeCall_throws (fn : M jsval) fb name maxBullets s e s1 :
  fn s = (inl e, s1) →
  safeCall fn (FbString fb) name maxBullets s
  = (inr fb, State (sources s1) (trace s1 ++ [ELog (LogApiError name)])).
Proof. intros H. unfold safeCall. run. by rewrite H. Qed.

Lemma safeCall_returns (fn : M jsval) fb name maxBullets s raw s1 :
  fn s = (inr (JStr raw), s1) →
  safeCall fn fb name maxBullets s = (inr (cleanBullets raw maxBullets), s1).
Proof. intros H. unfold safeCall. run. by rewrite H. Qed.

Lemma call_text_run p question context ws s :
  call p (text_request w p question context ws) s
  = (inr (result_of p (complete w p (bulletPrompt question context 8 true) None)),
     after_call w p (bulletPrompt question context 8 true) ws s).
Proof.
  unfold call, safeCall, text_request, after_call, result_of.
  generalize (bulletPrompt question context 8 true). intros prompt.
  destruct (complete w p prompt None) as [| |[|raw]]; run;
    by rewrite <- ?app_assoc.
Qed.

(** The text flow with a non-empty question always answers with status 200. *)
Lemma text_flow_run question s :
  question ≠ [] →
  let ws := found w question in
  let prompt := bulletPrompt question (context_text ws) 8 true in
  let r p := result_of p (complete w p prompt None) in
  let results :=
    [(key OpenAI, r OpenAI); (key Mistral, r Mistral); (key Claude, r Claude);
     (key Gemini, r Gemini)] in
  let s' :=
    after_call w Gemini prompt ws
      (after_call w Claude prompt ws
         (after_call w Mistral prompt ws
            (after_call w OpenAI prompt ws
               (State (sources s) (trace s ++ search_events w question))))) in
  text_flow w question s
  = (inr (Response 200
            (AnswerBody results (buildConclusion results (sources s')) ws)),
     s').
Proof.
  intros Hq. destruct question as [|c q]; [done|]. clear Hq.
  unfold text_flow. cbv beta iota zeta. set (question := c :: q).
  unfold mbind at 1, M_bind at 1. rewrite performWebSearch_run.
  unfold mbind at 1, M_bind at 1.
  rewrite context_of_run by apply found_excerpts.
  unfold mbind at 1, M_bind at 1. rewrite call_text_run.
  unfold mbind at 1, M_bind at 1. rewrite call_text_run.
  unfold mbind at 1, M_bind at 1. rewrite call_text_run.
  unfold mbind at 1, M_bind at 1. rewrite call_text_run.
  reflexivity.
Qed.

End RunLemmas.

(** ** The aggregator: citations *)

Lemma proto_key_inherited : js "__proto__" ∈ object_prototype_keys.
Proof. unfold object_prototype_keys. rewrite !fmap_cons, !elem_of_cons. tauto. Qed.

Lemma evidence_field_plain e b : b ∉ evidence_keys → evidence_field e b = None.
Proof.
  intros Hb. unfold evidence_field.
  repeat case_decide; try done; exfalso; apply Hb; subst;
    unfold evidence_keys; rewrite !fmap_cons, !elem_of_cons; tauto.
Qed.

(** On a plain key, a read of [citationsMap] sees the own properties only. *)
Lemma cit_get_plain cm b :
  plain_key b →
  cit_get cm b =
    match own cm !! b with Some e => PRecord e | None => PPrim JUndef end.
Proof.
  intros [Hp He]. unfold cit_get.
  destruct (decide (b = js "__proto__")) as [->|_].
  { destruct Hp. apply proto_key_inherited. }
  destruct (own cm !! b); [done|].
  assert (E : proto cm ≫= (λ e, evidence_field e b) = None).
  { destruct (proto cm); [|done]. by apply evidence_field_plain. }
  rewrite E. by rewrite decide_False.
Qed.

(** A write is read back, whatever the key. *)
Lemma cit_get_set b e cm : cit_get (cit_set b e cm) b = PRecord e.
Proof.
  unfold cit_get, cit_set. destruct (decide (b = js "__proto__")); simpl; [done|].
  by rewrite lookup_insert_eq.
Qed.

(** A write to another key does not undo a citation. *)
Lemma cit_get_set_ne b b' e e' cm :
  b ≠ b' → cit_get cm b = PRecord e → cit_get (cit_set b' e' cm) b = PRecord e.
Proof.
  intros Hne. unfold cit_get, cit_set.
  destruct (decide (b = js "__proto__")) as [Hb|Hb];
    destruct (decide (b' = js "__proto__")) as [Hb'|Hb']; simpl;
    [congruence | done | |].
  - destruct (own cm !! b); [done|].
    destruct (proto cm ≫= _); [done|]. by case_decide.
  - rewrite lookup_insert_ne by done. done.
Qed.

Lemma cit_set_own_ne b b' e cm :
  b ≠ b' → own (cit_set b' e cm) !! b = own cm !! b.
Proof.
  intros Hne. unfold cit_set. case_decide; simpl; [done|].
  by rewrite lookup_insert_ne.
Qed.

(** The citation of a record: a link with its title and url, then its date
    or N/A in parentheses. *)
Lemma cit_record cm b e :
  cit_get cm b = PRecord e →
  cit cm b = js " [" ++ to_str (title e) ++ js "](" ++ to_str (url e) ++ js ") ("
             ++ (if truthy (date e) then to_str (date e) else js "N/A") ++ js ")".
Proof.
  intros H. unfold cit, suffix_of. rewrite H. simpl. unfold js_or.
  by destruct (truthy (date e)).
Qed.

Lemma cit_none cm b : cit_get cm b = PPrim JUndef → cit cm b = [].
Proof. intros H. unfold cit. by rewrite H. Qed.

(** [collect] performs the writes of [writes], in order. *)
Lemma foldl_visit_bullet_cits srcs acc ibs :
  (foldl (visit_bullet srcs) acc ibs).2
  = apply_writes acc.2
      (omap (λ ib, (λ e, (ib.2, e)) <$> (srcs ≫= (.!! ib.1))) ibs).
Proof.
  revert acc. induction ibs as [|ib ibs IH]; intros acc; [done|].
  simpl. rewrite IH. simpl. csimpl.
  destruct (srcs ≫= (.!! ib.1)); done.
Qed.

Lemma apply_writes_app cm ws1 ws2 :
  apply_writes cm (ws1 ++ ws2) = apply_writes (apply_writes cm ws1) ws2.
Proof. apply foldl_app. Qed.

Lemma foldl_visit_entry_cits sources acc results :
  (foldl (visit_entry sources) acc results).2
  = apply_writes acc.2 (writes results sources).
Proof.
  revert acc. induction results as [|entry results IH]; intros acc; [done|].
  simpl. rewrite IH. unfold visit_entry. rewrite foldl_visit_bullet_cits.
  change (writes (entry :: results) sources)
    with (writes_of (sources !! entry.1) (conclusion_bullets entry.2)
          ++ writes results sources).
  by rewrite apply_writes_app.
Qed.

Lemma collect_cits results sources :
  (collect results sources).2 = apply_writes no_citations (writes results sources).
Proof. unfold collect. by rewrite foldl_visit_entry_cits. Qed.

(** Last writer wins: the citation read for a text is the record of the
    last write made under that text. *)
Lemma apply_writes_last cm ws b e :
  last (filter (λ w, w.1 = b) ws) = Some (b, e) →
  cit_get (apply_writes cm ws) b = PRecord e.
Proof.
  induction ws as [|w ws IH] using rev_ind; [done|].
  rewrite filter_app, apply_writes_app. simpl.
  destruct (decide (w.1 = b)) as [Hw|Hw].
  - rewrite filter_cons_True, filter_nil, last_snoc by done.
    intros [= Hwe]. rewrite Hwe. simpl. apply cit_get_set.
  - rewrite filter_cons_False, filter_nil, app_nil_r by done.
    intros H. apply cit_get_set_ne; [done|]. by apply IH.
Qed.

Lemma apply_writes_unwritten cm ws b :
  own cm !! b = None → b ∉ ws.*1 → own (apply_writes cm ws) !! b = None.
Proof.
  revert cm. induction ws as [|w ws IH]; intros cm Hcm Hb; [done|].
  simpl. apply IH.
  - rewrite cit_set_own_ne; [done|]. intros ->. apply Hb. left.
  - intros H. apply Hb. by right.
Qed.

(** A text that no provider gave at an index where that provider has an
    evidence record is never written. *)
Lemma writes_of_key srcs bs b :
  b ∈ (writes_of srcs bs).*1 →
  ∃ i e, bs !! i = Some b ∧ srcs ≫= (.!! i) = Some e.
Proof.
  unfold writes_of. intros ((b' & e) & -> & H)%list_elem_of_fmap.
  apply list_elem_of_omap in H as ((i & b0) & Hib & He).
  apply elem_of_lookup_imap in Hib as (i' & x & [= -> ->] & Hx).
  simpl in He. destruct (srcs ≫= (.!! i')) as [e0|] eqn:E; [|done].
  simpl in He. injection He as -> ->. eauto.
Qed.

Lemma writes_key results sources b :
  b ∈ (writes results sources).*1 →
  ∃ entry i e, entry ∈ results ∧ conclusion_bullets entry.2 !! i = Some b ∧
               sources !! entry.1 ≫= (.!! i) = Some e.
Proof.
  unfold writes. intros ((b' & e) & -> & H)%list_elem_of_fmap.
  apply list_elem_of_bind in H as (entry & Hw & Hentry).
  destruct (writes_of_key (sources !! entry.1) (conclusion_bullets entry.2) b')
    as (i & e' & Hi & He'); [|by eauto 10].
  apply list_elem_of_fmap. by exists (b', e).
Qed.

(** A plain text without a write gets no suffix. *)
Lemma collect_unwritten results sources b :
  plain_key b →
  (∀ entry i, entry ∈ results → conclusion_bullets entry.2 !! i = Some b →
              sources !! entry.1 ≫= (.!! i) = None) →
  cit (collect results sources).2 b = [].
Proof.
  intros Hp Hno. apply cit_none. rewrite cit_get_plain by done.
  rewrite collect_cits, apply_writes_unwritten; [done..|].
  intros (entry & i & e & Hentry & Hi & He)%writes_key.
  by rewrite (Hno entry i) in He.
Qed.

(** What C7 says holds on plain keys: the citation of a text is the record
    of the last write under that text, rendered as a link and a date, and a
    plain text that was never written gets no suffix. *)
Lemma buildConclusion_citations results sources b :
  match last (filter (λ w, w.1 = b) (writes results sources)) with
  | Some (_, e) =>
      cit (collect results sources).2 b
      = js " [" ++ to_str (title e) ++ js "](" ++ to_str (url e) ++ js ") ("
        ++ (if truthy (date e) then to_str (date e) else js "N/A") ++ js ")"
  | None => plain_key b → cit (collect results sources).2 b = []
  end.
Proof.
  destruct (last _) as [[b' e]|] eqn:E.
  - assert (b' = b) as ->.
    { apply last_Some_elem_of in E. by apply list_elem_of_filter in E as [? _]. }
    apply cit_record. rewrite collect_cits. by apply apply_writes_last.
  - intros Hp. apply cit_none. rewrite cit_get_plain by done.
    rewrite collect_cits, apply_writes_unwritten; [done..|].
    intros ((b' & e) & Hb & Hin)%list_elem_of_fmap. simpl in Hb. subst b'.
    apply last_None in E.
    assert (H : (b, e) ∈ filter (λ w, w.1 = b) (writes results sources)).
    { by apply list_elem_of_filter. }
    rewrite E in H. by apply elem_of_nil in H.
Qed.

(** C7 fails on the code where the text of a bullet is the name of a
    property that every object inherits: the read of [citationsMap] finds
    the inherited function, which is truthy, and a suffix without title,
    url or date is appended although no citation was recorded. *)
Theorem buildConclusion_inherited_key :
  buildConclusion [(js "gemini", js "- constructor")] ∅
  = js "- constructor [undefined](undefined) (N/A)"
  ∧
  conclusion_of (ask methods_world (JStr (js "Which methods?")) None (State ∅ []))
  = Some (js "- toString [undefined](undefined) (N/A)" ++ [LF]
          ++ js "- valueOf [undefined](undefined) (N/A)").
Proof. split; vm_compute; reflexivity. Qed.

(** ** The aggregator: the lines of the conclusion *)

Lemma not_LF_Forall (l : jsstring) : (LF ∉ l) ↔ Forall (λ c, c ≠ LF) l.
Proof.
  rewrite Forall_forall. split.
  - intros H c Hc ->. done.
  - intros H Hin. by apply (H LF).
Qed.

Lemma output_lines_join_lines ls :
  Forall (λ l, (LF ∉ l) ∧ l ≠ []) ls → output_lines (join [LF] ls) = ls.
Proof.
  intros H. destruct ls as [|l ls]; [done|].
  assert (E : ∃ c r, join [LF] (l :: ls) = c :: r).
  { inversion H as [|? ? [_ Hl] _]; subst.
    destruct l as [|c l]; [done|]. destruct ls; simpl; eauto. }
  destruct E as (c & r & E). unfold output_lines. rewrite E, <- E.
  apply split_join; [done|]. eapply Forall_impl; [exact H|]. by intros ? [? _].
Qed.

Lemma strip_dash_Forall (P : N → Prop) l : Forall P l → Forall P (strip_dash l).
Proof.
  intros H. destruct l as [|c l]; [done|]. simpl.
  destruct (c =? dash)%N; [|done].
  apply Forall_drop_while. by inversion H.
Qed.

Lemma conclusion_bullets_no_LF text b : b ∈ conclusion_bullets text → LF ∉ b.
Proof.
  unfold conclusion_bullets. intros [_ Hb]%list_elem_of_filter.
  apply list_elem_of_fmap in Hb as (l & -> & Hl).
  apply not_LF_Forall, Forall_trim, strip_dash_Forall, not_LF_Forall.
  by apply (proj1 (Forall_forall _ _) (split_no_sep LF text)).
Qed.

Lemma first_occurrences_subseteq l : first_occurrences l ⊆ l.
Proof.
  induction l as [|x l IH]; [done|]. simpl. intros y Hy.
  apply elem_of_cons in Hy as [->|Hy]; [left|].
  right. apply IH. by apply list_elem_of_filter in Hy as [_ ?].
Qed.

Lemma all_bullets_no_LF results b : b ∈ all_bullets results → LF ∉ b.
Proof.
  unfold all_bullets. intros (entry & Hb & _)%list_elem_of_bind.
  by apply (conclusion_bullets_no_LF entry.2).
Qed.

Lemma cit_set_records P b e cm :
  P e → records_in P cm → records_in P (cit_set b e cm).
Proof.
  intros He [Hown Hproto]. unfold cit_set. case_decide; split; simpl.
  - exact Hown.
  - by intros ? [= <-].
  - intros k e' Hk. apply lookup_insert_Some in Hk as [[_ <-]|[_ Hk]];
      [done | by apply (Hown k)].
  - exact Hproto.
Qed.

Lemma apply_writes_records P cm ws :
  Forall (λ w, P w.2) ws → records_in P cm → records_in P (apply_writes cm ws).
Proof.
  intros H. revert cm. induction H as [|w ws Hw _ IH]; intros cm Hcm; [done|].
  simpl. by apply IH, cit_set_records.
Qed.

Lemma cit_get_records P cm b e :
  records_in P cm → cit_get cm b = PRecord e → P e.
Proof.
  intros [Hown Hproto]. unfold cit_get. case_decide.
  - destruct (proto cm) as [e'|] eqn:E; [|done]. intros [= <-]. by apply Hproto.
  - destruct (own cm !! b) as [e'|] eqn:E.
    + intros [= <-]. by apply (Hown b).
    + destruct (proto cm ≫= _); [done|]. by case_decide.
Qed.

(** Every record written to [citationsMap] is a record of the sources. *)
Lemma writes_records results sources :
  Forall (λ w, ∃ model evs, sources !! model = Some evs ∧ w.2 ∈ evs)
         (writes results sources).
Proof.
  apply Forall_forall. intros [b e] Hin. unfold writes in Hin.
  apply list_elem_of_bind in Hin as (entry & Hin & _).
  unfold writes_of in Hin.
  apply list_elem_of_omap in Hin as ((i & b0) & _ & He). simpl in He.
  destruct (sources !! entry.1) as [evs|] eqn:E; [|done]. simpl in He.
  destruct (evs !! i) as [e0|] eqn:Ei; [|done]. injection He as <- <-.
  exists entry.1, evs. split; [done|]. by eapply list_elem_of_lookup_2.
Qed.

Lemma suffix_of_no_LF p :
  (∀ e, p = PRecord e → one_line e) → LF ∉ suffix_of p.
Proof.
  intros Hp. unfold suffix_of.
  assert (Hlit : ∀ l : jsstring, bool_decide (LF ∉ l) = true → LF ∉ l).
  { intros l. apply bool_decide_eq_true_1. }
  assert (Hu : LF ∉ js "undefined") by by apply Hlit.
  destruct p as [e| |v]; cbn [prop_field].
  - destruct (Hp e eq_refl) as (Ht & Hu' & Hd).
    rewrite !not_elem_of_app. repeat split; try (by apply Hlit); try done.
    unfold js_or. destruct (truthy (date e)); [done | by apply Hlit].
  - by apply Hlit.
  - by apply Hlit.
Qed.

Lemma decorate_no_LF results sources b :
  (∀ model evs e, sources !! model = Some evs → e ∈ evs → one_line e) →
  b ∈ all_bullets results →
  (LF ∉ decorate (collect results sources).2 b) ∧
  decorate (collect results sources).2 b ≠ [].
Proof.
  intros Hsrc Hb. split; [|done].
  unfold decorate, bullet. rewrite !not_elem_of_app. split; [split|].
  - by apply (bool_decide_eq_true_1 (LF ∉ js "- ")).
  - by apply (all_bullets_no_LF results).
  - unfold cit. destruct (prop_truthy _); [|apply not_elem_of_nil].
    apply suffix_of_no_LF. intros e He.
    apply (cit_get_records one_line (collect results sources).2 b e); [|done].
    rewrite collect_cits. apply apply_writes_records.
    + eapply Forall_impl; [apply writes_records|].
      intros w (model & evs & Hm & Hw). by apply (Hsrc model evs).
    + split; [|done]. intros k e' Hk. simpl in Hk.
      by apply lookup_empty_Some in Hk.
Qed.

(** C1, as it is stated, fails on the lines of the conclusion: the title of
    a citation is copied as it is, and a title with a line break makes six
    lines of five entries; the same happens through the handler. *)
Lemma buildConclusion_six_lines :
  length (conclusion_lines [(js "gemini", five_bullets)]
                           {[ js "gemini" := [headline] ]}) = 5 ∧
  length (output_lines
            (buildConclusion [(js "gemini", five_bullets)]
                             {[ js "gemini" := [headline] ]})) = 6 ∧
  (length ∘ output_lines)
    <$> conclusion_of (ask headline_world (JStr (js "news?")) None (State ∅ []))
  = Some 6.
Proof. repeat split; vm_compute; reflexivity. Qed.

(** C1, amended. The conclusion is a function of its two arguments alone.
    It is the join of at most five entries, the decorated forms of as many
    texts; these texts are the first five of the first occurrences among
    all providers' bullets, taken in provider order then in-provider order,
    so no two of them are equal, and they do not depend on the sources. When
    no provider has a surviving bullet the conclusion is the empty string.
    When no title, url or date of a record of the sources holds a line
    break, the lines of the conclusion are these entries, so the conclusion
    has at most five lines. *)
Theorem buildConclusion_lines
    (results : list (jsstring * jsstring))
    (sources : gmap jsstring (list evidence)) :
  ∃ texts : list jsstring,
    texts = take 5 (first_occurrences (all_bullets results)) ∧
    conclusion_lines results sources
      = (λ b, js "- " ++ b ++ cit (collect results sources).2 b) <$> texts ∧
    buildConclusion results sources
      = join [LF] (conclusion_lines results sources) ∧
    length (conclusion_lines results sources) ≤ 5 ∧
    NoDup texts ∧
    (Forall (λ entry, conclusion_bullets entry.2 = []) results →
     buildConclusion results sources = []) ∧
    ((∀ model evs e, sources !! model = Some evs → e ∈ evs → one_line e) →
     output_lines (buildConclusion results sources)
       = conclusion_lines results sources ∧
     length (output_lines (buildConclusion results sources)) ≤ 5).
Proof.
  exists (take 5 (first_occurrences (all_bullets results))).
  assert (E : conclusion_lines results sources
              = decorate (collect results sources).2 <$>
                take 5 (first_occurrences (all_bullets results))).
  { unfold conclusion_lines.
    by rewrite collect_lines, Set_of_first_occurrences. }
  assert (Hlen : length (conclusion_lines results sources) ≤ 5).
  { rewrite E, length_fmap, length_take. lia. }
  split; [done|]. split; [by rewrite E|]. split; [done|]. split; [done|].
  split.
  { apply (sublist_NoDup _ (first_occurrences (all_bullets results)));
      [apply NoDup_first_occurrences | apply sublist_take]. }
  split.
  { intros Hall. unfold buildConclusion. rewrite E.
    assert (Hnil : all_bullets results = []).
    { clear E Hlen. unfold all_bullets.
      induction Hall as [|entry rs He _ IH]; [done|].
      rewrite bind_cons. simpl in He. by rewrite He, IH. }
    by rewrite Hnil. }
  intros Hsrc.
  assert (Hout : output_lines (buildConclusion results sources)
                 = conclusion_lines results sources).
  { unfold buildConclusion. apply output_lines_join_lines.
    rewrite E. apply Forall_fmap, Forall_forall. intros b Hb.
    apply decorate_no_LF; [done|].
    by apply first_occurrences_subseteq, (subseteq_take 5). }
  split; [done | by rewrite Hout].
Qed.

Lemma buildConclusion_lines_witness :
  (∀ model evs e,
     ({[ js "gemini" := [Evidence (JStr (js "https://example.org/a"))
                                  (JStr (js "Paris")) JUndef (JStr (js "x"))] ]}
        : gmap jsstring (list evidence)) !! model = Some evs →
     e ∈ evs → one_line e) ∧
  length (output_lines
            (buildConclusion [(js "gemini", five_bullets)]
               {[ js "gemini" := [Evidence (JStr (js "https://example.org/a"))
                                           (JStr (js "Paris")) JUndef
                                           (JStr (js "x"))] ]})) ≤ 5.
Proof.
  assert (H : ∀ model evs e,
     ({[ js "gemini" := [Evidence (JStr (js "https://example.org/a"))
                                  (JStr (js "Paris")) JUndef (JStr (js "x"))] ]}
        : gmap jsstring (list evidence)) !! model = Some evs →
     e ∈ evs → one_line e).
  { intros model evs e Hm He.
    apply lookup_singleton_Some in Hm as [_ <-].
    apply list_elem_of_singleton in He as ->.
    apply (bool_decide_unpack _). vm_compute. exact I. }
  split; [exact H|].
  destruct (buildConclusion_lines [(js "gemini", five_bullets)]
              {[ js "gemini" := [Evidence (JStr (js "https://example.org/a"))
                                          (JStr (js "Paris")) JUndef
                                          (JStr (js "x"))] ]})
    as (texts & _ & _ & _ & _ & _ & _ & Hlines).
  exact (proj2 (Hlines H)).
Defined.

(** ** The retriever *)

(** C3. For every query the retriever returns, without throwing, at most
    five evidence records; they are made from the first five search
    results only, and no other page is fetched, however many results the
    search gave; when the search call fails the result is empty. *)
Theorem performWebSearch_bounded (w : world) (query : jsstring) (s : state) :
  ∃ ev s',
    performWebSearch w query s = (inr ev, s') ∧
    length ev ≤ 5 ∧
    (∀ organic, search w query = SearchData organic →
       Forall (λ e, ∃ res u a, res ∈ take 5 (default [] organic) ∧
                     link res = JStr u ∧ fetch w u = PageParsed a ∧
                     e = evidence_of res a) ev ∧
       ∀ u, EFetch u ∈ trace s' →
            EFetch u ∈ trace s ∨
            ∃ res, res ∈ take 5 (default [] organic) ∧ link res = JStr u) ∧
    (search w query = SearchFailed → ev = []).
Proof.
  exists (found w query), (State (sources s) (trace s ++ search_events w query)).
  split; [apply performWebSearch_run|]. split; [apply found_length|]. split.
  - intros organic Hs. split.
    + apply Forall_forall.
      intros e (organic' & res & u & a & Hs' & Hres & Hl & Hf & ->)%found_spec.
      rewrite Hs in Hs'. injection Hs' as <-. eauto 10.
    + intros u. simpl. rewrite elem_of_app. intros [H|H]; [by left|right].
      unfold search_events, first_results in H. rewrite Hs in H.
      destruct (well_formed query).
      * apply elem_of_cons in H as [H|H]; [done|].
        apply list_elem_of_bind in H as (res & Hu & Hres).
        exists res. split; [done|]. unfold page_events in Hu.
        destruct (link res) as [|u'].
        -- by apply list_elem_of_singleton in Hu.
        -- apply elem_of_cons in Hu as [[= ->]|Hu]; [done|].
           destruct (fetch w u'); [by apply list_elem_of_singleton in Hu|].
           by apply elem_of_nil in Hu.
      * by apply list_elem_of_singleton in H.
  - intros Hs. unfold found, first_results. rewrite Hs.
    by destruct (well_formed query).
Qed.

(** C5, as the specification states it, fails: the date of the search
    result, when there is one, is taken before the date of the article. *)
Lemma performWebSearch_date_precedence :
  (performWebSearch cex_world (js "q") (State ∅ [])).1
  = inr [Evidence (JStr (js "https://example.org/a")) (JStr (js "Article title"))
                  (JStr (js "2 days ago")) (JStr (js "Summary"))]
  ∧ (performWebSearch cex_world (js "q") (State ∅ [])).1
    ≠ inr [claimed_evidence cex_result (Some cex_article)].
Proof. split; [vm_compute; reflexivity | vm_compute; discriminate]. Qed.

(** C5, amended. Every record that the retriever returns is built from one
    of the first five search results and from the article, if any, that was
    extracted from the page at its link. Its title is the title of that
    article when it is a non-empty string, else the title of the search
    result. Its date is the date of the search result when there is one,
    else the published time of the article, else N/A. Its excerpt is the
    excerpt of the article, else the first 1000 code units of its text, else
    the words No content. *)
Theorem performWebSearch_record_fields (w : world) (query : jsstring)
    (s : state) :
  ∃ ev s',
    performWebSearch w query s = (inr ev, s') ∧
    Forall (λ e, ∃ organic res u a,
      search w query = SearchData organic ∧
      res ∈ take 5 (default [] organic) ∧
      link res = JStr u ∧ fetch w u = PageParsed a ∧
      e = evidence_of res a ∧
      url e = link res ∧
      title e = (if truthy (article_field a_title a) then article_field a_title a
                 else res_title res) ∧
      date e = (if truthy (res_date res) then res_date res
                else if truthy (article_field a_publishedTime a)
                     then article_field a_publishedTime a
                     else JStr (js "N/A")) ∧
      excerpt e = (if truthy (article_field a_excerpt a) then article_field a_excerpt a
                   else match article_field a_textContent a with
                        | JStr (c :: t) => JStr (take 1000 (c :: t))
                        | _ => JStr (js "No content")
                        end)) ev.
Proof.
  exists (found w query), (State (sources s) (trace s ++ search_events w query)).
  split; [apply performWebSearch_run|]. apply Forall_forall.
  intros e (organic & res & u & a & Hs & Hres & Hl & Hf & ->)%found_spec.
  exists organic, res, u, a.
  split; [done|]. split; [done|]. split; [done|]. split; [done|].
  split; [done|]. split; [done|]. split; [done|]. split.
  - simpl. unfold js_or.
    destruct (truthy (res_date res)) eqn:E1; simpl; [by rewrite E1|].
    by destruct (truthy (article_field a_publishedTime a)) eqn:E2; rewrite ?E2.
  - simpl. unfold js_or.
    destruct (truthy (article_field a_excerpt a)) eqn:E1; simpl; [by rewrite E1|].
    by destruct (article_field a_textContent a) as [|[|c t]].
Qed.

(** ** The handler *)

Section Handler.

Variable w : world.

Lemma call_file_run f fileQuery context ws s :
  call Gemini (file_request w f fileQuery context ws) s
  = (inr (file_result (complete w Gemini (bulletPrompt fileQuery context 8 true) (Some f))),
     after_file_call w f (bulletPrompt fileQuery context 8 true) ws s).
Proof.
  unfold call, safeCall, file_request, after_file_call, file_result.
  generalize (bulletPrompt fileQuery context 8 true). intros prompt.
  destruct (complete w Gemini prompt (Some f)) as [| |[|[|c raw]]]; run;
    by rewrite <- ?app_assoc.
Qed.

(** The file flow always answers with status 200. *)
Lemma file_flow_run question f s :
  let fileQuery :=
    match question with
    | _ :: _ => question
    | [] => js "Describe the uploaded file."
    end in
  let ws := found w fileQuery in
  let prompt := bulletPrompt fileQuery (context_text ws) 8 true in
  let gemini := file_result (complete w Gemini prompt (Some f)) in
  let s' :=
    after_file_call w f prompt ws
      (State (sources s) (trace s ++ search_events w fileQuery)) in
  file_flow w question f s
  = (inr (Response 200
            (AnswerBody [(key Gemini, gemini)]
                        (buildConclusion [(key Gemini, gemini)] (sources s'))
                        ws)),
     s').
Proof.
  unfold file_flow. cbv zeta.
  set (fileQuery := match question with [] => _ | _ :: _ => _ end).
  unfold mbind at 1, M_bind at 1. rewrite performWebSearch_run.
  unfold mbind at 1, M_bind at 1.
  rewrite context_of_run by apply found_excerpts.
  unfold mbind at 1, M_bind at 1. rewrite call_file_run.
  reflexivity.
Qed.

Lemma ask_text question s :
  ask w question None s = text_flow w (question_of question) (State ∅ (trace s)).
Proof. reflexivity. Qed.

Lemma ask_file question f s :
  ask w question (Some f) s
  = file_flow w (question_of question) f (State ∅ (trace s)).
Proof. reflexivity. Qed.

End Handler.

Lemma trim_blank blank : Forall (λ c, is_space c = true) blank → trim blank = [].
Proof.
  intros H. unfold trim, trimStart.
  assert (E : drop_while is_space blank = []).
  { induction H as [|c r Hc _ IH]; [done|]. simpl. by rewrite Hc. }
  by rewrite E.
Qed.

(** C6. With no file and a question that is empty, the handler answers
    with status 400 and the message Question cannot be empty; the trace of
    the request is left as it was, so no search request, page request or
    provider request is made. *)
Theorem empty_question_rejected (w : world) (question : jsval) (s : state) :
  question_of question = [] →
  ask w question None s
  = (inr (Response 400 (ErrorBody (js "Question cannot be empty"))),
     State ∅ (trace s)).
Proof. intros H. rewrite ask_text, H. reflexivity. Qed.

Lemma empty_question_rejected_witness :
  question_of (JStr []) = [] ∧
  ask cex_world (JStr []) None (State ∅ [])
  = (inr (Response 400 (ErrorBody (js "Question cannot be empty"))),
     State ∅ []).
Proof.
  split; [reflexivity|].
  apply (empty_question_rejected cex_world (JStr []) (State ∅ [])).
  reflexivity.
Defined.

(** C10. A question made of white space only is trimmed to the empty
    string, as an absent question is, and the handler then behaves as for
    an absent question, with or without a file. Without a file it answers
    with status 400 and the message Question cannot be empty. With a file
    it searches for the default query, Describe the uploaded file., and
    sends the provider the prompt built from that query and from the context
    of the evidence found for it. *)
Theorem blank_question_is_absent (w : world) (blank : jsstring) (f : file)
    (s : state) :
  Forall (λ c, is_space c = true) blank →
  question_of (JStr blank) = question_of JUndef ∧
  (∀ req_file, ask w (JStr blank) req_file s = ask w JUndef req_file s) ∧
  ask w (JStr blank) None s
    = (inr (Response 400 (ErrorBody (js "Question cannot be empty"))),
       State ∅ (trace s)) ∧
  ∃ ev s1 context gemini conclusion s',
    performWebSearch w (js "Describe the uploaded file.") (State ∅ (trace s))
      = (inr ev, s1) ∧
    context_of ev s1 = (inr context, s1) ∧
    ask w (JStr blank) (Some f) s
      = (inr (Response 200 (AnswerBody [(js "gemini", gemini)] conclusion ev)), s') ∧
    EComplete Gemini
      (bulletPrompt (js "Describe the uploaded file.") context 8 true) (Some f)
      ∈ trace s'.
Proof.
  intros Hb.
  assert (Hq : question_of (JStr blank) = []) by (by apply trim_blank).
  split; [done|]. split.
  { intros [f'|]; by rewrite ?ask_text, ?ask_file, Hq. }
  split; [by rewrite ask_text, Hq|].
  eexists _, _, _, _, _, _. split; [apply performWebSearch_run|]. split.
  { apply context_of_run, found_excerpts. }
  rewrite ask_file, Hq. split; [apply file_flow_run|].
  unfold after_file_call. simpl. rewrite elem_of_app. right. left.
Qed.

Lemma blank_question_is_absent_witness :
  Forall (λ c, is_space c = true) (js "   ") ∧
  question_of (JStr (js "   ")) = question_of JUndef.
Proof.
  split; [repeat constructor|].
  apply (blank_question_is_absent cex_world (js "   ") (File [] (js "application/pdf"))
           (State ∅ [])).
  repeat constructor.
Defined.

(** ** Provider isolation *)

Lemma cleanBullets_head raw n c : head (cleanBullets raw n) = Some c → c = dash.
Proof.
  unfold cleanBullets. destruct (bullets raw n) as [|b [|b' bs]]; [done|..];
    by intros [= <-].
Qed.

Lemma cleanBullets_not_fallback raw n p : cleanBullets raw n ≠ error_from p.
Proof.
  intros H. assert (Hh : head (cleanBullets raw n) = Some 69%N).
  { rewrite H. by destruct p. }
  by apply cleanBullets_head in Hh.
Qed.

(** C2. When the function handed to [safeCall] throws, for whatever
    reason, [safeCall] returns the fallback string and does not throw. So a
    request in text mode always ends with status 200, and in its results the
    entry of a provider is the fallback string of that provider when its
    exchange was rejected or could not be read, and is otherwise the
    normalized text of its answer, which is never a fallback string. *)
Theorem provider_isolation (w : world) (question : jsval) (s : state)
    (fn : M jsval) (fb name : jsstring) (maxBullets : nat) (s0 s1 : state)
    (e : exn) :
  question_of question ≠ [] →
  fn s0 = (inl e, s1) →
  (∃ s2, safeCall fn (FbString fb) name maxBullets s0 = (inr fb, s2)) ∧
  ∃ prompt (r : provider → jsstring) conclusion ev s',
    ask w question None s
      = (inr (Response 200
                (AnswerBody ((λ p, (key p, r p)) <$> [OpenAI; Mistral; Claude; Gemini])
                            conclusion ev)), s') ∧
    ∀ p,
      match complete w p prompt None with
      | Content (JStr raw) =>
          r p = cleanBullets raw 8 ∧ ∀ p', r p ≠ error_from p'
      | _ => r p = error_from p
      end.
Proof.
  intros Hq Hfn. split.
  { eexists. by apply safeCall_throws with (e := e). }
  set (q := question_of question) in *.
  set (prompt := bulletPrompt q (context_text (found w q)) 8 true).
  exists prompt, (λ p, result_of p (complete w p prompt None)).
  eexists _, _, _. split.
  { rewrite ask_text. by apply text_flow_run. }
  intros p. cbv beta.
  destruct (complete w p prompt None) as [| |[|raw]]; simpl; try done.
  split; [done|]. intros p'. apply cleanBullets_not_fallback.
Qed.

Lemma provider_isolation_witness :
  question_of (JStr (js "capital?")) ≠ [] ∧
  ∃ s2, safeCall (throw NetworkError) (FbString (js "Error from Gemini"))
                 (js "Gemini") 8 (State ∅ [])
        = (inr (js "Error from Gemini"), s2).
Proof.
  assert (Hq : question_of (JStr (js "capital?")) ≠ []) by (vm_compute; discriminate).
  split; [exact Hq|].
  apply (provider_isolation half_world (JStr (js "capital?")) (State ∅ [])
           (throw NetworkError) (js "Error from Gemini") (js "Gemini") 8
           (State ∅ []) (State ∅ []) NetworkError Hq).
  reflexivity.
Defined.

(** ** Fallback strings in the conclusion *)

Lemma key_inj p p' : key p = key p' → p = p'.
Proof. by destruct p, p'. Qed.

Lemma error_from_inj p p' : error_from p = error_from p' → p = p'.
Proof. by destruct p, p'. Qed.

(** A fallback string goes through the aggregator as one bullet. *)
Lemma conclusion_bullets_error_from p :
  conclusion_bullets (error_from p) = [error_from p].
Proof. destruct p; vm_compute; reflexivity. Qed.

Lemma error_from_plain p : plain_key (error_from p).
Proof.
  apply (bool_decide_unpack _). destruct p; vm_compute; exact I.
Qed.

Lemma after_call_sources_other w p p' prompt ws s :
  p' ≠ p →
  sources (after_call w p' prompt ws s) !! key p = sources s !! key p.
Proof.
  intros Hne. unfold after_call. simpl.
  destruct (assigned _); [|done].
  apply lookup_insert_ne. intros H. by apply key_inj in H.
Qed.

Lemma after_call_sources_rejected w p prompt ws s :
  complete w p prompt None = Rejected →
  sources (after_call w p prompt ws s) = sources s.
Proof. intros H. unfold after_call. by rewrite H. Qed.

Lemma after_call_sources_unassigned w p p' prompt ws s :
  complete w p prompt None = Rejected →
  sources s !! key p = None →
  sources (after_call w p' prompt ws s) !! key p = None.
Proof.
  intros Hr Hs. destruct (decide (p' = p)) as [->|Hne].
  - by rewrite after_call_sources_rejected.
  - by rewrite after_call_sources_other.
Qed.

(** C9, as it is stated, fails in two ways. A provider whose answer arrives
    but cannot be read has its evidence assigned before the reading throws,
    so its fallback line takes the citation of the first evidence record.
    And the citation map is keyed by text: when another provider gives the
    fallback text as a bullet at an index that has evidence, the fallback
    line takes that citation. *)
Lemma fallback_line_cited :
  conclusion_of (ask malformed_world (JStr (js "capital?")) None (State ∅ []))
  = Some (js "- Error from OpenAI [Article title](https://example.org/a) (2 days ago)"
          ++ [LF]
          ++ js "- Paris is the capital of France [Article title](https://example.org/a) (2 days ago)")
  ∧
  conclusion_of (ask echo_world (JStr (js "capital?")) None (State ∅ []))
  = Some (js "- Error from OpenAI [Article title](https://example.org/a) (2 days ago)"
          ++ [LF]
          ++ js "- Paris is the capital of France [Article title](https://example.org/a) (2 days ago)").
Proof. split; vm_compute; reflexivity. Qed.

(** C9, amended. In text mode, when a provider rejects the request, its
    fallback string is its entry of the results and is one of the bullets
    that the aggregator collects; the provider has no entry in the sources;
    and when no other provider's normalized answer has the fallback text as
    a bullet, the fallback text has no citation: if it is among the first
    five distinct bullets, its line of the conclusion is the marker followed
    by the fallback text and nothing else. *)
Theorem fallback_line_uncited (w : world) (question : jsval) (s : state)
    (p : provider) :
  question_of question ≠ [] →
  (∀ prompt, complete w p prompt None = Rejected) →
  (∀ p' prompt raw, p' ≠ p → complete w p' prompt None = Content (JStr raw) →
                    error_from p ∉ conclusion_bullets (cleanBullets raw 8)) →
  ∃ results conclusion ev s',
    ask w question None s
      = (inr (Response 200 (AnswerBody results conclusion ev)), s') ∧
    (key p, error_from p) ∈ results ∧
    error_from p ∈ all_bullets results ∧
    sources s' !! key p = None ∧
    conclusion = join [LF] (conclusion_lines results (sources s')) ∧
    cit (collect results (sources s')).2 (error_from p) = [] ∧
    (error_from p ∈ take 5 (first_occurrences (all_bullets results)) →
     js "- " ++ error_from p ∈ conclusion_lines results (sources s')).
Proof.
  intros Hq Hrej Hother.
  set (q := question_of question) in *.
  set (ws := found w q).
  set (prompt := bulletPrompt q (context_text ws) 8 true).
  set (r := λ p', result_of p' (complete w p' prompt None)).
  set (results := (λ p', (key p', r p')) <$> [OpenAI; Mistral; Claude; Gemini]).
  assert (Hrp : r p = error_from p).
  { unfold r. by rewrite Hrej. }
  assert (Hin : (key p, error_from p) ∈ results).
  { rewrite <- Hrp. apply list_elem_of_fmap. exists p. split; [done|].
    destruct p; rewrite !elem_of_cons; tauto. }
  assert (Hentries : ∀ entry, entry ∈ results → ∃ p', entry = (key p', r p')).
  { intros entry (p' & -> & _)%list_elem_of_fmap. eauto. }
  assert (Hnot : ∀ p', p' ≠ p → error_from p ∉ conclusion_bullets (r p')).
  { intros p' Hne. unfold r.
    destruct (complete w p' prompt None) as [| |[|raw]] eqn:E; simpl;
      try (rewrite conclusion_bullets_error_from, list_elem_of_singleton;
           intros H; by apply error_from_inj in H).
    by apply (Hother p' prompt raw). }
  eexists results, _, ws, _. split.
  { rewrite ask_text. by apply text_flow_run. }
  set (s' := after_call w Gemini _ _ _).
  assert (Hsrc : sources s' !! key p = None).
  { unfold s'. repeat apply after_call_sources_unassigned; try apply Hrej. done. }
  assert (Hcit : cit (collect results (sources s')).2 (error_from p) = []).
  { apply collect_unwritten; [apply error_from_plain|].
    intros entry i (p' & ->)%Hentries Hi. simpl in *.
    destruct (decide (p' = p)) as [->|Hne]; [by rewrite Hsrc|].
    destruct (Hnot p' Hne). by eapply list_elem_of_lookup_2. }
  split; [done|]. split.
  { unfold all_bullets. apply list_elem_of_bind. exists (key p, error_from p).
    split; [|done]. simpl. rewrite conclusion_bullets_error_from. left. }
  split; [done|]. split; [done|]. split; [done|].
  intros Htop. unfold conclusion_lines. cbv zeta.
  rewrite collect_lines, Set_of_first_occurrences.
  apply list_elem_of_fmap. exists (error_from p). split; [|done].
  unfold decorate. by rewrite Hcit, app_nil_r.
Qed.

Lemma fallback_line_uncited_witness :
  question_of (JStr (js "capital?")) ≠ [] ∧
  (∀ prompt, complete half_world OpenAI prompt None = Rejected) ∧
  ∃ results conclusion ev s',
    ask half_world (JStr (js "capital?")) None (State ∅ [])
      = (inr (Response 200 (AnswerBody results conclusion ev)), s') ∧
    (key OpenAI, error_from OpenAI) ∈ results ∧
    error_from OpenAI ∈ all_bullets results ∧
    sources s' !! key OpenAI = None ∧
    conclusion = join [LF] (conclusion_lines results (sources s')) ∧
    cit (collect results (sources s')).2 (error_from OpenAI) = [] ∧
    (error_from OpenAI ∈ take 5 (first_occurrences (all_bullets results)) →
     js "- " ++ error_from OpenAI ∈ conclusion_lines results (sources s')).
Proof.
  assert (Hq : question_of (JStr (js "capital?")) ≠ []) by (vm_compute; discriminate).
  assert (Hr : ∀ prompt, complete half_world OpenAI prompt None = Rejected) by done.
  split; [exact Hq|]. split; [exact Hr|].
  apply (fallback_line_uncited half_world (JStr (js "capital?")) (State ∅ [])
           OpenAI Hq Hr).
  intros p' prompt raw Hne Hc.
  assert (Hraw : raw = js "* Paris is the capital of France").
  { destruct p'; simpl in Hc; [done|..]; by injection Hc as <-. }
  subst raw. vm_compute. intros H.
  apply list_elem_of_singleton in H. discriminate H.
Defined.

(** * Further properties of the helpers *)

(** ** The normalizer and the aggregator together *)

Lemma bullets_strip text max t :
  t ∈ bullets text max → ∃ l, t = strip_markers l ∧ 3 < length t.
Proof. intros (Hlen & l & _ & ->)%bullets_spec. eauto. Qed.

Lemma cleanBullets_nil text max :
  cleanBullets text max = [] ↔ bullets text max = [].
Proof.
  unfold cleanBullets. split; [|by intros ->].
  destruct (bullets text max) as [|t [|t' ts]]; [done|..]; discriminate.
Qed.

(** What the aggregator strips from a line of the normalizer is the
    uniform marker and nothing more. *)
Lemma strip_dash_bullet l :
  trim (strip_dash (bullet (strip_markers l))) = strip_markers l.
Proof.
  change (strip_dash (bullet (strip_markers l)))
    with (drop_while is_space (strip_markers l)).
  rewrite drop_while_id; [apply strip_markers_trimmed|].
  unfold strip_markers. apply trim_head.
Qed.

Lemma conclusion_bullets_normalized text max :
  conclusion_bullets (cleanBullets text max) = bullets text max.
Proof.
  unfold conclusion_bullets.
  pose proof (output_lines_cleanBullets text max) as Ho.
  unfold output_lines in Ho.
  destruct (cleanBullets text max) as [|c r] eqn:Ec.
  - apply cleanBullets_nil in Ec. by rewrite Ec.
  - rewrite Ho, <- list_fmap_compose.
    assert (Hall : Forall (λ t, ((λ l, trim (strip_dash l)) ∘ bullet) t = t
                               ∧ 3 < length t) (bullets text max)).
    { apply Forall_forall. intros t (l & -> & Hlen)%bullets_strip.
      split; [apply strip_dash_bullet | done]. }
    clear -Hall. induction Hall as [|t ts [Ht Hl] _ IH]; [done|].
    rewrite fmap_cons, Ht, filter_cons_True by done. by rewrite IH.
Qed.

(** Round trip from the normalizer to the aggregator: what the aggregator
    reads back from the output of the normalizer is the sequence of texts
    that the normalizer kept, also when that output is the only entry of the
    results. *)
Theorem conclusion_bullets_cleanBullets (text : jsstring) (max : nat) :
  conclusion_bullets (cleanBullets text max) = bullets text max ∧
  all_bullets [(js "gemini", cleanBullets text max)] = bullets text max.
Proof.
  split; [apply conclusion_bullets_normalized|].
  unfold all_bullets. rewrite bind_cons. cbn [snd].
  rewrite conclusion_bullets_normalized. apply app_nil_r.
Qed.

Lemma Forall_join (P : N → Prop) sep ls :
  Forall P sep → Forall (Forall P) ls → Forall P (join sep ls).
Proof.
  intros Hsep. induction 1 as [|l ls Hl Hls IH]; [constructor|].
  destruct ls as [|l' ls']; [done|].
  change (join sep (l :: l' :: ls')) with (l ++ sep ++ join sep (l' :: ls')).
  by rewrite !Forall_app.
Qed.

(** The output of the normalizer holds no star, no hash and no backtick. *)
Lemma cleanBullets_no_inline text max :
  Forall (λ c, is_inline_marker c = false) (cleanBullets text max).
Proof.
  unfold cleanBullets. apply Forall_join; [by repeat constructor|].
  apply Forall_fmap, Forall_forall. intros t (l & -> & _)%bullets_strip.
  unfold bullet. apply Forall_app. split; [by repeat constructor|].
  apply strip_markers_inline.
Qed.

Lemma split_elem sep s l c : l ∈ split sep s → c ∈ l → c ∈ s.
Proof.
  revert l. induction s as [|d s IH]; simpl; intros l Hl Hc.
  - apply list_elem_of_singleton in Hl as ->. done.
  - destruct (d =? sep)%N.
    + apply elem_of_cons in Hl as [->|Hl]; [by apply elem_of_nil in Hc|].
      right. by apply (IH l).
    + destruct (split sep s) as [|l0 ls] eqn:E.
      * apply list_elem_of_singleton in Hl as ->.
        apply list_elem_of_singleton in Hc as ->. left.
      * apply elem_of_cons in Hl as [->|Hl].
        -- apply elem_of_cons in Hc as [->|Hc]; [left|].
           right. apply (IH l0); [left | done].
        -- right. apply (IH l); [by right | done].
Qed.

Lemma bullets_no_dash text max :
  backtick ∉ text → Forall (λ t, head t ≠ Some dash) (bullets text max).
Proof.
  intros Hb. apply Forall_forall. intros t Ht.
  apply bullets_spec in Ht as (_ & l & Hl & ->).
  apply strip_markers_head_no_backtick. intros Hin. apply Hb.
  by apply (split_elem LF text l).
Qed.

(** The normalizer is stable from its second pass on: normalizing its own
    output once more changes nothing after that. *)
Theorem cleanBullets_stable_after_two (text : jsstring) (max : nat) :
  cleanBullets (cleanBullets (cleanBullets text max) max) max
  = cleanBullets (cleanBullets text max) max.
Proof.
  unfold cleanBullets at 1. rewrite bullets_again; [done|].
  apply bullets_no_dash. intros Hb.
  pose proof (proj1 (Forall_forall _ _) (cleanBullets_no_inline text max) _ Hb) as H.
  discriminate H.
Qed.

(** On a text without a backtick one pass is enough: the output of the
    normalizer is normalized to itself. *)
Theorem cleanBullets_fixed_no_backtick (text : jsstring) (max : nat) :
  backtick ∉ text →
  cleanBullets (cleanBullets text max) max = cleanBullets text max.
Proof.
  intros Hb. unfold cleanBullets at 1. rewrite bullets_again; [done|].
  by apply bullets_no_dash.
Qed.

Lemma cleanBullets_fixed_no_backtick_witness :
  (backtick ∉ js "* **Paris** is the capital") ∧
  cleanBullets (cleanBullets (js "* **Paris** is the capital") 8) 8
  = cleanBullets (js "* **Paris** is the capital") 8.
Proof.
  assert (H : backtick ∉ js "* **Paris** is the capital").
  { apply (bool_decide_unpack _). vm_compute. exact I. }
  split; [exact H|].
  exact (cleanBullets_fixed_no_backtick (js "* **Paris** is the capital") 8 H).
Defined.

Lemma trimEnd_last s c : last (trimEnd s) = Some c → is_space c = false.
Proof.
  induction s as [|d s IH]; simpl; [done|].
  destruct (trimEnd s) as [|x r] eqn:E.
  - destruct (is_space d) eqn:Hd; [done|]. simpl. congruence.
  - intros H. apply IH. by rewrite <- H.
Qed.

(** Every text that the normalizer keeps is free of the inline markers and
    neither starts nor ends with white space. *)
Theorem cleanBullets_texts_clean (text : jsstring) (max : nat) :
  Forall (λ line, ∃ t, line = js "- " ++ t ∧
            Forall (λ c, is_inline_marker c = false) t ∧
            (∀ c, head t = Some c → is_space c = false) ∧
            (∀ c, last t = Some c → is_space c = false))
         (output_lines (cleanBullets text max)).
Proof.
  rewrite output_lines_cleanBullets. apply Forall_fmap, Forall_forall.
  intros t (l & -> & _)%bullets_strip. exists (strip_markers l).
  split; [done|]. split; [apply strip_markers_inline|]. split.
  - intros c. unfold strip_markers. apply trim_head.
  - intros c. unfold strip_markers, trim. apply trimEnd_last.
Qed.

(** A smaller maximum keeps a prefix of what a larger one keeps. *)
Theorem cleanBullets_max_prefix (text : jsstring) (m n : nat) :
  m ≤ n →
  output_lines (cleanBullets text m) = take m (output_lines (cleanBullets text n)).
Proof.
  intros Hmn. rewrite !output_lines_cleanBullets, <- fmap_take. f_equal.
  unfold bullets. rewrite take_take. f_equal. lia.
Qed.

Lemma cleanBullets_max_prefix_witness :
  1 ≤ 2 ∧
  output_lines (cleanBullets (js "* first" ++ [LF] ++ js "* second") 1)
  = take 1 (output_lines (cleanBullets (js "* first" ++ [LF] ++ js "* second") 2)).
Proof.
  split; [lia|].
  apply (cleanBullets_max_prefix (js "* first" ++ [LF] ++ js "* second") 1 2). lia.
Defined.

(** The output of the normalizer is empty exactly when the maximum is zero
    or no line of the text is longer than three code units once stripped. *)
Theorem cleanBullets_empty_iff (text : jsstring) (max : nat) :
  cleanBullets text max = [] ↔
  max = 0 ∨ Forall (λ l, length (strip_markers l) ≤ 3) (split LF text).
Proof.
  rewrite cleanBullets_nil. unfold bullets. split.
  - intros H. destruct max as [|k]; [by left|right].
    apply Forall_forall. intros l Hl.
    destruct (decide (3 < length (strip_markers l))) as [Hlen|]; [|lia].
    assert (Hin : strip_markers l ∈
                  filter (λ l, 3 < length l) (strip_markers <$> split LF text)).
    { apply list_elem_of_filter. split; [done|]. by apply list_elem_of_fmap_2. }
    destruct (filter _ _) as [|x xs]; [by apply elem_of_nil in Hin | done].
  - intros [->|H]; [done|].
    assert (E : filter (λ l, 3 < length l) (strip_markers <$> split LF text) = []).
    { induction H as [|l ls Hl _ IH]; [done|].
      rewrite fmap_cons, filter_cons_False by lia. exact IH. }
    by rewrite E, take_nil.
Qed.

(** ** The prompt *)

(** The prompt ends with the question and the answer marker, after a head
    that does not depend on the question; so, the other arguments being the
    same, two questions never give the same prompt. *)
Theorem bulletPrompt_question (context : jsstring) (count : nat)
    (analysis : bool) :
  ∃ head,
    (∀ q, bulletPrompt q context count analysis
          = head ++ js "Q: " ++ q ++ [LF] ++ js "A:") ∧
    (∀ q q', bulletPrompt q context count analysis
             = bulletPrompt q' context count analysis → q = q').
Proof.
  set (base := js "Answer in " ++ show_nat count
    ++ js " short bullet points (max one line each). Include key facts, trends, and cite sources if provided."
    ++ [LF]).
  set (p1 := if analysis
             then base ++ js "Also identify pros/cons, differing viewpoints, or gaps if applicable." ++ [LF]
             else base).
  set (p2 := match context with
             | _ :: _ => p1 ++ js "Context from sources: " ++ context ++ [LF; LF]
             | [] => p1
             end).
  assert (E : ∀ q, bulletPrompt q context count analysis
                   = p2 ++ js "Q: " ++ q ++ [LF] ++ js "A:") by reflexivity.
  exists p2. split; [exact E|].
  intros q q'. rewrite !E. intros H.
  apply app_inv_head in H. apply (app_inv_head (js "Q: ")) in H.
  by apply app_inv_tail in H.
Qed.

(** ** The invoker *)

(** [safeCall] never throws: it returns the normalized text of what the
    request function returned, or else the fallback, after a log line that
    names the provider. *)
Theorem safeCall_never_throws (fn : M jsval) (fb : fallback) (name : jsstring)
    (maxBullets : nat) (s : state) :
  ∃ r s',
    safeCall fn fb name maxBullets s = (inr r, s') ∧
    ((∃ raw, fn s = (inr (JStr raw), s') ∧ r = cleanBullets raw maxBullets) ∨
     (∃ err s1, r = fallback_value fb err ∧
                sources s' = sources s1 ∧
                trace s' = trace s1 ++ [ELog (LogApiError name)] ∧
                (fn s = (inl err, s1) ∨ fn s = (inr JUndef, s1)))).
Proof.
  unfold safeCall. run.
  destruct (fn s) as [[err|[|raw]] s1] eqn:E; simpl.
  - eexists _, _. split; [done|]. right. exists err, s1. eauto.
  - eexists _, _. split; [done|]. right. exists TypeError, s1. eauto.
  - eexists _, _. split; [done|]. left. eauto.
Qed.

(** ** The retriever: requests, order and records *)

Lemma filter_bind {A} (p : event → bool) (f : A → list event) (l : list A) :
  List.filter p (l ≫= f) = l ≫= λ x, List.filter p (f x).
Proof.
  induction l as [|x l IH]; [done|].
  rewrite !bind_cons, List.filter_app. by rewrite IH.
Qed.

Lemma bind_four {A B} (f : A → list B) (a b c d : A) :
  [a; b; c; d] ≫= f = f a ++ f b ++ f c ++ f d.
Proof. rewrite !bind_cons. cbn. by rewrite app_nil_r. Qed.

Lemma bind_nil_all {A B} (f : A → list B) (l : list A) :
  (∀ x, f x = []) → l ≫= f = [].
Proof.
  intros H. induction l as [|x l IH]; [done|]. by rewrite bind_cons, H, IH.
Qed.

Lemma bind_length_le {A B} (f : A → list B) (l : list A) k :
  (∀ x, length (f x) ≤ k) → length (l ≫= f) ≤ k * length l.
Proof.
  intros H. induction l as [|x l IH]; [simpl; lia|].
  rewrite bind_cons, length_app. simpl. specialize (H x). lia.
Qed.

Section Retriever.

Variable w : world.

Lemma page_events_no_search res : List.filter is_search (page_events w res) = [].
Proof.
  unfold page_events. destruct (link res) as [|u]; [done|]. simpl.
  by destruct (fetch w u).
Qed.

Lemma page_events_no_complete res :
  List.filter is_complete (page_events w res) = [].
Proof.
  unfold page_events. destruct (link res) as [|u]; [done|]. simpl.
  by destruct (fetch w u).
Qed.

Lemma page_events_one_fetch res :
  length (List.filter is_fetch (page_events w res)) ≤ 1.
Proof.
  unfold page_events. destruct (link res) as [|u]; [simpl; lia|]. simpl.
  destruct (fetch w u); simpl; lia.
Qed.

Lemma first_results_length query : length (first_results w query) ≤ 5.
Proof.
  unfold first_results. destruct (search w query); [simpl; lia|].
  rewrite length_take. lia.
Qed.

Lemma search_events_searches query :
  List.filter is_search (search_events w query)
  = if well_formed query then [ESearch query] else [].
Proof.
  unfold search_events. destruct (well_formed query); [|done]. simpl. f_equal.
  destruct (search w query); [done|].
  rewrite filter_bind. apply bind_nil_all, page_events_no_search.
Qed.

Lemma search_events_no_complete query :
  List.filter is_complete (search_events w query) = [].
Proof.
  unfold search_events. destruct (well_formed query); [|done]. simpl.
  destruct (search w query); [done|].
  rewrite filter_bind. apply bind_nil_all, page_events_no_complete.
Qed.

Lemma search_events_fetches query :
  length (List.filter is_fetch (search_events w query)) ≤ 5.
Proof.
  unfold search_events. destruct (well_formed query); [|simpl; lia]. simpl.
  destruct (search w query); [simpl; lia|].
  rewrite filter_bind.
  etrans; [apply (bind_length_le _ _ 1), page_events_one_fetch|].
  pose proof (first_results_length query). lia.
Qed.

(** The retriever issues at most one search request, none when the query
    cannot be encoded, at most five page requests and no provider request;
    it leaves the sources of the request alone. A query that cannot be
    encoded gives no evidence and one log line. *)
Theorem performWebSearch_requests (query : jsstring) (s : state) :
  ∃ ev s' added,
    performWebSearch w query s = (inr ev, s') ∧
    sources s' = sources s ∧
    trace s' = trace s ++ added ∧
    List.filter is_search added
      = (if well_formed query then [ESearch query] else []) ∧
    length (List.filter is_fetch added) ≤ 5 ∧
    List.filter is_complete added = [] ∧
    (well_formed query = false → ev = [] ∧ added = [ELog LogSearchError]).
Proof.
  exists (found w query), (State (sources s) (trace s ++ search_events w query)),
         (search_events w query).
  split; [apply performWebSearch_run|]. split; [done|]. split; [done|].
  split; [apply search_events_searches|].
  split; [apply search_events_fetches|].
  split; [apply search_events_no_complete|].
  intros Hwf. unfold found, search_events. by rewrite Hwf.
Qed.

Lemma page_outcome_url res e : page_outcome w res = Some e → url e = link res.
Proof.
  unfold page_outcome. destruct (link res) as [|u] eqn:E; [done|].
  destruct (fetch w u); [done|]. intros [= <-]. simpl. by rewrite E.
Qed.

Lemma omap_page_outcome_sublist rs :
  (url <$> omap (page_outcome w) rs) `sublist_of` (link <$> rs).
Proof.
  induction rs as [|res rs IH]; [constructor|]. csimpl.
  destruct (page_outcome w res) as [e|] eqn:E; csimpl.
  - rewrite (page_outcome_url res e E). by apply sublist_skip.
  - by apply sublist_cons.
Qed.

(** The evidence comes in search-rank order: the addresses of the records
    are, in order, addresses of the first five search results. *)
Theorem performWebSearch_rank_order (query : jsstring) (s : state) :
  ∃ ev s',
    performWebSearch w query s = (inr ev, s') ∧
    ∀ organic, search w query = SearchData organic →
      (url <$> ev) `sublist_of` (link <$> take 5 (default [] organic)).
Proof.
  exists (found w query), (State (sources s) (trace s ++ search_events w query)).
  split; [apply performWebSearch_run|]. intros organic Hs.
  unfold found, first_results. rewrite Hs.
  destruct (well_formed query); [apply omap_page_outcome_sublist|].
  apply sublist_nil_l.
Qed.

Lemma omap_page_outcome_length rs :
  length (omap (page_outcome w) rs) = length (List.filter (page_parsed w) rs).
Proof.
  induction rs as [|res rs IH]; [done|]. csimpl.
  unfold page_outcome at 1, page_parsed at 1.
  destruct (link res) as [|u]; [exact IH|].
  destruct (fetch w u); [exact IH|]. csimpl. by rewrite IH.
Qed.

(** A page that cannot be fetched or parsed is dropped and the others
    stay: there are as many records as pages, among the first five results,
    that were fetched and parsed. *)
Theorem performWebSearch_drops_failed_pages (query : jsstring) (s : state) :
  ∃ ev s',
    performWebSearch w query s = (inr ev, s') ∧
    ∀ organic, well_formed query = true → search w query = SearchData organic →
      length ev
      = length (List.filter (page_parsed w) (take 5 (default [] organic))).
Proof.
  exists (found w query), (State (sources s) (trace s ++ search_events w query)).
  split; [apply performWebSearch_run|]. intros organic Hwf Hs.
  unfold found, first_results. rewrite Hwf, Hs.
  apply omap_page_outcome_length.
Qed.

Lemma js_or_truthy a b : truthy b = true → truthy (js_or a b) = true.
Proof. intros Hb. unfold js_or. by destruct (truthy a) eqn:E. Qed.

(** Every record has an address that is a string and a date and an excerpt
    that are non-empty strings; when the article has no excerpt of its own
    the excerpt has at most 1000 code units. *)
Theorem performWebSearch_records_filled (query : jsstring) (s : state) :
  ∃ ev s',
    performWebSearch w query s = (inr ev, s') ∧
    Forall (λ e,
      (∃ u, url e = JStr u) ∧ truthy (date e) = true ∧ truthy (excerpt e) = true ∧
      ∃ res u a, link res = JStr u ∧ fetch w u = PageParsed a ∧
        e = evidence_of res a ∧
        (truthy (article_field a_excerpt a) = false →
         length (to_str (excerpt e)) ≤ 1000)) ev.
Proof.
  exists (found w query), (State (sources s) (trace s ++ search_events w query)).
  split; [apply performWebSearch_run|]. apply Forall_forall.
  intros e (organic & res & u & a & _ & _ & Hl & Hf & ->)%found_spec.
  split; [by exists u|]. split; [by apply js_or_truthy|].
  split; [by apply js_or_truthy|]. exists res, u, a.
  split; [done|]. split; [done|]. split; [done|].
  intros Hx.
  change (excerpt (evidence_of res a))
    with (js_or (js_or (article_field a_excerpt a)
                       (opt_substring0 1000 (article_field a_textContent a)))
                (JStr (js "No content"))).
  unfold js_or at 2. rewrite Hx.
  destruct (article_field a_textContent a) as [|t];
    unfold opt_substring0, substring0, js_or.
  - simpl. lia.
  - destruct (truthy (JStr (take 1000 t))); cbn [to_str].
    + rewrite length_take. lia.
    + simpl. lia.
Qed.

End Retriever.

(** ** The handler: what a request does *)

Lemma context_text_nil ws : context_text ws = [] ↔ ws = [].
Proof.
  split; [|by intros ->]. unfold context_text.
  destruct ws as [|e [|e' ws]]; [done|..]; discriminate.
Qed.

Section Requests.

Variable w : world.

Lemma text_flow_trace question s :
  trace (after_call w Gemini (prompt_of w question) (found w question)
           (after_call w Claude (prompt_of w question) (found w question)
              (after_call w Mistral (prompt_of w question) (found w question)
                 (after_call w OpenAI (prompt_of w question) (found w question)
                    (State (sources s) (trace s ++ search_events w question))))))
  = trace s ++ text_events w question.
Proof.
  unfold text_events, after_call. cbn [trace].
  rewrite bind_four. unfold text_call_events.
  by rewrite <- !app_assoc.
Qed.

Lemma file_flow_trace f fileQuery s :
  trace (after_file_call w f (prompt_of w fileQuery) (found w fileQuery)
           (State (sources s) (trace s ++ search_events w fileQuery)))
  = trace s ++ file_events w f fileQuery.
Proof.
  unfold file_events, after_file_call, file_call_events. cbn [trace].
  by rewrite <- !app_assoc.
Qed.

Lemma text_call_events_complete prompt p :
  List.filter is_complete (text_call_events w prompt p) = [EComplete p prompt None].
Proof. unfold text_call_events. simpl. by destruct (failed _). Qed.

Lemma text_call_events_other prompt p :
  List.filter is_search (text_call_events w prompt p) = [] ∧
  List.filter is_fetch (text_call_events w prompt p) = [].
Proof. unfold text_call_events. simpl. by destruct (failed _). Qed.

Lemma file_call_events_complete f prompt :
  List.filter is_complete (file_call_events w f prompt)
  = [EComplete Gemini prompt (Some f)].
Proof. unfold file_call_events. simpl. by destruct (file_failed _). Qed.

Lemma file_call_events_other f prompt :
  List.filter is_search (file_call_events w f prompt) = [] ∧
  List.filter is_fetch (file_call_events w f prompt) = [].
Proof. unfold file_call_events. simpl. by destruct (file_failed _). Qed.

Lemma text_events_complete question :
  List.filter is_complete (text_events w question)
  = (λ p, EComplete p (prompt_of w question) None)
    <$> [OpenAI; Mistral; Claude; Gemini].
Proof.
  unfold text_events.
  rewrite List.filter_app, search_events_no_complete, filter_bind.
  by rewrite bind_four, !text_call_events_complete.
Qed.

Lemma text_events_search question :
  List.filter is_search (text_events w question)
  = if well_formed question then [ESearch question] else [].
Proof.
  unfold text_events.
  rewrite List.filter_app, search_events_searches, filter_bind.
  rewrite bind_nil_all; [by rewrite app_nil_r|].
  intros p. apply text_call_events_other.
Qed.

Lemma text_events_fetch question :
  length (List.filter is_fetch (text_events w question)) ≤ 5.
Proof.
  unfold text_events.
  rewrite List.filter_app, filter_bind.
  rewrite (bind_nil_all _ _ (λ p, proj2 (text_call_events_other _ p))).
  rewrite app_nil_r. apply search_events_fetches.
Qed.

Lemma file_events_complete f fileQuery :
  List.filter is_complete (file_events w f fileQuery)
  = [EComplete Gemini (prompt_of w fileQuery) (Some f)].
Proof.
  unfold file_events.
  by rewrite List.filter_app, search_events_no_complete, file_call_events_complete.
Qed.

Lemma file_events_search f fileQuery :
  List.filter is_search (file_events w f fileQuery)
  = if well_formed fileQuery then [ESearch fileQuery] else [].
Proof.
  unfold file_events.
  rewrite List.filter_app, search_events_searches.
  rewrite (proj1 (file_call_events_other _ _)). by rewrite app_nil_r.
Qed.

Lemma file_events_fetch f fileQuery :
  length (List.filter is_fetch (file_events w f fileQuery)) ≤ 5.
Proof.
  unfold file_events.
  rewrite List.filter_app, (proj2 (file_call_events_other _ _)), app_nil_r.
  apply search_events_fetches.
Qed.

(** In text mode with a question, the request makes one search for the
    trimmed question, when it can be encoded, and calls each of the four
    providers exactly once, in the order of the results, without a file and
    with one and the same prompt: the trimmed question, eight bullets,
    analysis mode, and the context of the evidence found, which is empty
    exactly when no evidence was found. *)
Theorem ask_text_calls (question : jsval) (s : state) :
  question_of question ≠ [] →
  ∃ results conclusion ev s' added context,
    ask w question None s
      = (inr (Response 200 (AnswerBody results conclusion ev)), s') ∧
    trace s' = trace s ++ added ∧
    List.filter is_search added
      = (if well_formed (question_of question)
         then [ESearch (question_of question)] else []) ∧
    (∀ s0, context_of ev s0 = (inr context, s0)) ∧
    (context = [] ↔ ev = []) ∧
    List.filter is_complete added
      = (λ p, EComplete p (bulletPrompt (question_of question) context 8 true) None)
        <$> [OpenAI; Mistral; Claude; Gemini].
Proof.
  intros Hq. set (q := question_of question) in *.
  eexists _, _, (found w q), _, (text_events w q), (context_text (found w q)).
  split; [rewrite ask_text; by apply text_flow_run|].
  split; [apply (text_flow_trace q (State ∅ (trace s)))|].
  split; [apply text_events_search|].
  split; [intros s0; apply context_of_run, found_excerpts|].
  split; [apply context_text_nil|].
  apply text_events_complete.
Qed.



End Requests.

Lemma ask_text_calls_witness :
  question_of (JStr (js " capital? ")) ≠ [] ∧
  ∃ results conclusion ev s',
    ask half_world (JStr (js " capital? ")) None (State ∅ [])
    = (inr (Response 200 (AnswerBody results conclusion ev)), s').
Proof.
  assert (Hq : question_of (JStr (js " capital? ")) ≠ []) by (vm_compute; discriminate).
  split; [exact Hq|].
  destruct (ask_text_calls half_world (JStr (js " capital? ")) (State ∅ []) Hq)
    as (results & conclusion & ev & s' & added & context & H & _).
  exists results, conclusion, ev, s'. exact H.
Defined.


Lemma ask_summary (w : world) (question : jsval) (req_file : option file)
    (s : state) :
  ∃ resp s' added,
    ask w question req_file s = (inr resp, s') ∧
    trace s' = trace s ++ added ∧
    (status resp = 400 ∧ req_file = None ∧ question_of question = [] ∧
     added = []
     ∨
     status resp = 200 ∧ ¬ (req_file = None ∧ question_of question = []) ∧
     ∃ results conclusion ev,
       payload resp = AnswerBody results conclusion ev ∧
       length results ≤ 4 ∧ length ev ≤ 5) ∧
    length (List.filter is_search added) ≤ 1 ∧
    length (List.filter is_fetch added) ≤ 5 ∧
    length (List.filter is_complete added) ≤ 4.
Proof.
  destruct req_file as [f|].
  - set (fq := file_query (question_of question)).
    eexists _, _, (file_events w f fq).
    split; [rewrite ask_file; apply file_flow_run|].
    split; [apply (file_flow_trace w f fq (State ∅ (trace s)))|].
    split.
    { right. split; [done|]. split; [by intros [? _]|].
      eexists _, _, _. split; [done|]. split; [simpl; lia|].
      apply found_length. }
    rewrite file_events_search, file_events_complete.
    split; [destruct (well_formed fq); simpl; lia|].
    split; [apply file_events_fetch | simpl; lia].
  - destruct (question_of question) as [|c q] eqn:Hq.
    + eexists _, _, [].
      split; [rewrite ask_text, Hq; reflexivity|].
      split; [simpl; by rewrite app_nil_r|].
      split; [by left|]. simpl. lia.
    + eexists _, _, (text_events w (c :: q)).
      split; [rewrite ask_text, Hq; by apply text_flow_run|].
      split; [apply (text_flow_trace w (c :: q) (State ∅ (trace s)))|].
      split.
      { right. split; [done|]. split; [by intros [_ ?]|].
        eexists _, _, _. split; [done|]. split; [simpl; lia|].
        apply found_length. }
      rewrite text_events_search, text_events_complete.
      split; [destruct (well_formed (c :: q)); simpl; lia|].
      split; [apply text_events_fetch | simpl; lia].
Qed.

(** A request is answered unless reading the question throws. When the
    question has a [trim] property that is no function, the handler throws
    at its first line, before any request and without an answer. Otherwise
    it answers and does not throw: with status 400, and then nothing was
    requested, exactly when there is no file and the question is empty once
    trimmed; otherwise with status 200, at most four results and at most
    five sources. A request makes at most one search request, five page
    requests and four provider requests. *)
Theorem handle_responds (w : world) (question : question_field)
    (req_file : option file) (s : state) :
  match question with
  | QUncallableTrim => handle w question req_file s = (inl TypeError, s)
  | QValue v =>
      ∃ resp s' added,
        handle w question req_file s = (inr resp, s') ∧
        trace s' = trace s ++ added ∧
        (status resp = 400 ∧ req_file = None ∧ question_of v = [] ∧
         added = []
         ∨
         status resp = 200 ∧ ¬ (req_file = None ∧ question_of v = []) ∧
         ∃ results conclusion ev,
           payload resp = AnswerBody results conclusion ev ∧
           length results ≤ 4 ∧ length ev ≤ 5) ∧
        length (List.filter is_search added) ≤ 1 ∧
        length (List.filter is_fetch added) ≤ 5 ∧
        length (List.filter is_complete added) ≤ 4
  end.
Proof.
  destruct question as [v|]; [|reflexivity]. apply ask_summary.
Qed.

Lemma text_flow_summary w question s :
  question ≠ [] →
  ∃ results conclusion s',
    text_flow w question s
      = (inr (Response 200 (AnswerBody results conclusion (found w question))), s') ∧
    trace s' = trace s ++ text_events w question.
Proof.
  intros Hq. eexists _, _, _.
  split; [by apply text_flow_run | apply text_flow_trace].
Qed.

Lemma after_call_sources_lookup w p p' prompt ws s :
  sources (after_call w p' prompt ws s) !! key p
  = if decide (p' = p)
    then (if assigned (complete w p' prompt None) then Some ws
          else sources s !! key p)
    else sources s !! key p.
Proof.
  unfold after_call. cbn [sources].
  destruct (decide (p' = p)) as [->|Hne].
  - destruct (assigned _); [apply lookup_insert_eq | done].
  - destruct (assigned _); [|done].
    apply lookup_insert_ne. intros H. by apply key_inj in H.
Qed.

(** In text mode the sources hold, for each provider whose request was
    answered, the evidence of the request, the same for all; a provider
    whose request was rejected has no entry. *)
Theorem ask_text_sources (w : world) (question : jsval) (s : state) :
  question_of question ≠ [] →
  ∃ results conclusion ev s' context,
    ask w question None s
      = (inr (Response 200 (AnswerBody results conclusion ev)), s') ∧
    (∀ s0, context_of ev s0 = (inr context, s0)) ∧
    ∀ p,
      sources s' !! key p
      = match complete w p (bulletPrompt (question_of question) context 8 true) None with
        | Rejected => None
        | _ => Some ev
        end.
Proof.
  intros Hq. set (q := question_of question) in *.
  eexists _, _, (found w q), _, (context_text (found w q)).
  split; [rewrite ask_text; by apply text_flow_run|].
  split; [intros s0; apply context_of_run, found_excerpts|].
  intros p. rewrite !after_call_sources_lookup. cbn [sources].
  rewrite lookup_empty.
  destruct p; simpl;
    by destruct (complete w _ (bulletPrompt q (context_text (found w q)) 8 true) None).
Qed.

Lemma ask_text_sources_witness :
  question_of (JStr (js "capital?")) ≠ [] ∧
  ∃ results conclusion ev s',
    ask half_world (JStr (js "capital?")) None (State ∅ [])
    = (inr (Response 200 (AnswerBody results conclusion ev)), s') ∧
    sources s' !! key OpenAI = None ∧
    sources s' !! key Gemini = Some ev.
Proof.
  assert (Hq : question_of (JStr (js "capital?")) ≠ []) by (vm_compute; discriminate).
  split; [exact Hq|].
  destruct (ask_text_sources half_world (JStr (js "capital?")) (State ∅ []) Hq)
    as (results & conclusion & ev & s' & context & H & _ & Hs).
  exists results, conclusion, ev, s'. split; [exact H|].
  split; [exact (Hs OpenAI) | exact (Hs Gemini)].
Defined.

(** When the search call fails the request goes on with an empty context:
    it is answered with status 200 and no sources, and every provider
    receives the prompt without a context block. *)
Theorem ask_text_search_failed (w : world) (question : jsval) (s : state) :
  question_of question ≠ [] →
  search w (question_of question) = SearchFailed →
  ∃ results conclusion s',
    ask w question None s
      = (inr (Response 200 (AnswerBody results conclusion [])), s') ∧
    ∀ p,
      EComplete p
        (js "Answer in 8 short bullet points (max one line each). Include key facts, trends, and cite sources if provided."
         ++ [LF]
         ++ js "Also identify pros/cons, differing viewpoints, or gaps if applicable."
         ++ [LF] ++ js "Q: " ++ question_of question ++ [LF] ++ js "A:")
        None ∈ trace s'.
Proof.
  intros Hq Hs. set (q := question_of question) in *.
  assert (Hf : found w q = []).
  { unfold found, first_results. rewrite Hs. by destruct (well_formed q). }
  destruct (text_flow_summary w q (State ∅ (trace s)) Hq)
    as (results & conclusion & s' & Hrun & Htr).
  rewrite Hf in Hrun. exists results, conclusion, s'.
  split; [by rewrite ask_text|].
  intros p. rewrite Htr.
  apply elem_of_app. right. unfold text_events. apply elem_of_app. right.
  apply list_elem_of_bind. exists p. split.
  - unfold text_call_events, prompt_of. rewrite Hf. left.
  - destruct p; rewrite !elem_of_cons; tauto.
Qed.

Lemma ask_text_search_failed_witness :
  question_of (JStr (js "capital?")) ≠ [] ∧
  search offline_world (question_of (JStr (js "capital?"))) = SearchFailed ∧
  ∃ results conclusion s',
    ask offline_world (JStr (js "capital?")) None (State ∅ [])
    = (inr (Response 200 (AnswerBody results conclusion [])), s').
Proof.
  assert (Hq : question_of (JStr (js "capital?")) ≠ []) by (vm_compute; discriminate).
  split; [exact Hq|]. split; [reflexivity|].
  destruct (ask_text_search_failed offline_world (JStr (js "capital?"))
              (State ∅ []) Hq eq_refl) as (results & conclusion & s' & H & _).
  exists results, conclusion, s'. exact H.
Defined.

(** ** The pipeline from the normalizer to the aggregator *)

Lemma conclusion_bullets_result_of p r :
  conclusion_bullets (result_of p r)
  = match r with
    | Content (JStr raw) => bullets raw 8
    | _ => [error_from p]
    end.
Proof.
  destruct r as [| |[|raw]]; simpl;
    try apply conclusion_bullets_error_from.
  apply conclusion_bullets_normalized.
Qed.

(** In text mode the aggregator works on the concatenation, in provider
    order, of what each provider contributed: the texts that the normalizer
    kept of its answer, or its fallback string as one bullet. *)
Theorem ask_text_bullets (w : world) (question : jsval) (s : state) :
  question_of question ≠ [] →
  ∃ results conclusion ev s' context,
    ask w question None s
      = (inr (Response 200 (AnswerBody results conclusion ev)), s') ∧
    (∀ s0, context_of ev s0 = (inr context, s0)) ∧
    conclusion = buildConclusion results (sources s') ∧
    all_bullets results
    = [OpenAI; Mistral; Claude; Gemini] ≫= λ p,
        match complete w p (bulletPrompt (question_of question) context 8 true) None with
        | Content (JStr raw) => bullets raw 8
        | _ => [error_from p]
        end.
Proof.
  intros Hq. set (q := question_of question) in *.
  eexists _, _, (found w q), _, (context_text (found w q)).
  split; [rewrite ask_text; by apply text_flow_run|].
  split; [intros s0; apply context_of_run, found_excerpts|].
  split; [done|].
  unfold all_bullets. rewrite !bind_four. cbn [snd].
  by rewrite !conclusion_bullets_result_of.
Qed.

Lemma ask_text_bullets_witness :
  question_of (JStr (js "capital?")) ≠ [] ∧
  ∃ results conclusion ev s',
    ask half_world (JStr (js "capital?")) None (State ∅ [])
    = (inr (Response 200 (AnswerBody results conclusion ev)), s') ∧
    all_bullets results
    = [js "Error from OpenAI"; js "Paris is the capital of France";
       js "Paris is the capital of France"; js "Paris is the capital of France"].
Proof.
  assert (Hq : question_of (JStr (js "capital?")) ≠ []) by (vm_compute; discriminate).
  split; [exact Hq|].
  destruct (ask_text_bullets half_world (JStr (js "capital?")) (State ∅ []) Hq)
    as (results & conclusion & ev & s' & context & H & _ & _ & Hb).
  exists results, conclusion, ev, s'. split; [exact H|].
  rewrite Hb. vm_compute. reflexivity.
Defined.

(** ** The aggregator: where citations come from *)

Lemma writes_nil results sources :
  (∀ entry, entry ∈ results →
            sources !! entry.1 = None ∨ sources !! entry.1 = Some []) →
  writes results sources = [].
Proof.
  intros Hsrc. destruct (writes results sources) as [|[b e] ws] eqn:E; [done|].
  destruct (writes_key results sources b) as (entry & i & e' & Hentry & _ & He).
  { rewrite E. left. }
  by destruct (Hsrc entry Hentry) as [H|H]; rewrite H in He.
Qed.

(** A read of the empty [citationsMap] finds what every object inherits. *)
Lemma cit_no_citations b :
  cit no_citations b
  = if decide (b ∈ object_prototype_keys)
    then js " [undefined](undefined) (N/A)" else [].
Proof.
  unfold cit, cit_get. simpl.
  destruct (decide (b = js "__proto__")) as [->|Hb].
  - by rewrite decide_True by apply proto_key_inherited.
  - rewrite lookup_empty. by destruct (decide (b ∈ object_prototype_keys)).
Qed.

(** Without evidence no citation is recorded. When no provider of the
    results has an evidence record, each line of the conclusion is the
    marker followed by its text, and nothing else unless the text is the
    name of a property that every object inherits: such a line gets the
    suffix of an empty citation. *)
Theorem buildConclusion_without_evidence
    (results : list (jsstring * jsstring))
    (sources : gmap jsstring (list evidence)) :
  (∀ entry, entry ∈ results →
            sources !! entry.1 = None ∨ sources !! entry.1 = Some []) →
  conclusion_lines results sources
  = (λ b, js "- " ++ b ++
          if decide (b ∈ object_prototype_keys)
          then js " [undefined](undefined) (N/A)" else [])
    <$> take 5 (first_occurrences (all_bullets results)) ∧
  buildConclusion results sources
  = join [LF]
      ((λ b, js "- " ++ b ++
             if decide (b ∈ object_prototype_keys)
             then js " [undefined](undefined) (N/A)" else [])
       <$> take 5 (first_occurrences (all_bullets results))).
Proof.
  intros Hsrc.
  assert (E : conclusion_lines results sources
    = (λ b, js "- " ++ b ++
            if decide (b ∈ object_prototype_keys)
            then js " [undefined](undefined) (N/A)" else [])
      <$> take 5 (first_occurrences (all_bullets results))).
  { unfold conclusion_lines. cbv zeta.
    rewrite collect_lines, Set_of_first_occurrences.
    rewrite collect_cits, writes_nil by done.
    apply list_fmap_ext. intros i b _. unfold decorate, bullet.
    change (apply_writes no_citations []) with no_citations.
    by rewrite cit_no_citations, <- app_assoc. }
  split; [done|]. unfold buildConclusion. by rewrite E.
Qed.

Lemma buildConclusion_without_evidence_witness :
  (∀ entry, entry ∈ [(js "gemini", js "- title" ++ [LF] ++ js "- toString"
                                    ++ [LF] ++ js "- plain text")] →
     (∅ : gmap jsstring (list evidence)) !! entry.1 = None
     ∨ (∅ : gmap jsstring (list evidence)) !! entry.1 = Some []) ∧
  conclusion_lines
    [(js "gemini", js "- title" ++ [LF] ++ js "- toString"
                   ++ [LF] ++ js "- plain text")] ∅
  = [js "- title"; js "- toString [undefined](undefined) (N/A)";
     js "- plain text"].
Proof.
  assert (H : ∀ entry,
     entry ∈ [(js "gemini", js "- title" ++ [LF] ++ js "- toString"
                             ++ [LF] ++ js "- plain text")] →
     (∅ : gmap jsstring (list evidence)) !! entry.1 = None
     ∨ (∅ : gmap jsstring (list evidence)) !! entry.1 = Some []).
  { intros entry _. left. apply lookup_empty. }
  split; [exact H|].
  rewrite (proj1 (buildConclusion_without_evidence
             [(js "gemini", js "- title" ++ [LF] ++ js "- toString"
                            ++ [LF] ++ js "- plain text")] ∅ H)).
  vm_compute. reflexivity.
Defined.

Lemma first_occurrences_NoDup l : NoDup l → first_occurrences l = l.
Proof.
  induction 1 as [|x l Hx _ IH]; [done|]. simpl. rewrite IH. f_equal.
  apply filter_all, Forall_forall. by intros y Hy ->.
Qed.

Lemma writes_keys_sublist (srcs : option (list evidence)) (h : nat → nat)
    (bs : list jsstring) :
  (omap (λ ib : nat * jsstring, (λ e, (ib.2, e)) <$> (srcs ≫= (.!! ib.1)))
        (imap (λ i x, (h i, x)) bs)).*1 `sublist_of` bs.
Proof.
  revert h. induction bs as [|b bs IH]; intros h; [constructor|].
  rewrite imap_cons. csimpl.
  destruct (srcs ≫= (.!! h 0)) as [e|]; csimpl.
  - apply sublist_skip, (IH (h ∘ S)).
  - apply sublist_cons, (IH (h ∘ S)).
Qed.

Lemma writes_of_keys_sublist srcs bs : (writes_of srcs bs).*1 `sublist_of` bs.
Proof. apply (writes_keys_sublist srcs id). Qed.

Lemma writes_of_elem srcs bs i b e :
  bs !! i = Some b → srcs ≫= (.!! i) = Some e → (b, e) ∈ writes_of srcs bs.
Proof.
  intros Hb He. unfold writes_of. apply list_elem_of_omap.
  exists (i, b). split; [by apply elem_of_lookup_imap_2|].
  simpl. by rewrite He.
Qed.

Lemma apply_writes_preserve cm ws b e :
  b ∉ ws.*1 → cit_get cm b = PRecord e →
  cit_get (apply_writes cm ws) b = PRecord e.
Proof.
  revert cm. induction ws as [|w ws IH]; intros cm Hb Hcm; [done|].
  simpl. apply IH.
  - intros H. apply Hb. by right.
  - apply cit_get_set_ne; [|done]. intros ->. apply Hb. left.
Qed.

Lemma apply_writes_NoDup cm ws b e :
  NoDup ws.*1 → (b, e) ∈ ws → cit_get (apply_writes cm ws) b = PRecord e.
Proof.
  revert cm. induction ws as [|w ws IH]; intros cm Hnd Hin.
  { by apply elem_of_nil in Hin. }
  rewrite fmap_cons in Hnd. apply NoDup_cons in Hnd as [Hw Hnd].
  apply elem_of_cons in Hin as [<-|Hin]; simpl.
  - apply apply_writes_preserve; [done | apply cit_get_set].
  - by apply IH.
Qed.

(** Citations are attached by position. For one provider whose bullets are
    pairwise distinct, the line of the bullet at index [i], among the first
    five, carries the citation of the evidence record at index [i] of that
    provider, when there is one; when there is none and the text is a plain
    key, the line has no suffix. *)
Theorem buildConclusion_positional (model text : jsstring)
    (sources : gmap jsstring (list evidence)) (i : nat) (b : jsstring) :
  NoDup (conclusion_bullets text) →
  i < 5 →
  conclusion_bullets text !! i = Some b →
  (∀ e, sources !! model ≫= (.!! i) = Some e →
        conclusion_lines [(model, text)] sources !! i
        = Some (js "- " ++ b ++ js " [" ++ to_str (title e) ++ js "]("
                ++ to_str (url e) ++ js ") ("
                ++ (if truthy (date e) then to_str (date e) else js "N/A")
                ++ js ")")) ∧
  (sources !! model ≫= (.!! i) = None → plain_key b →
   conclusion_lines [(model, text)] sources !! i = Some (js "- " ++ b)).
Proof.
  intros Hnd Hi Hb.
  assert (Hall : all_bullets [(model, text)] = conclusion_bullets text).
  { unfold all_bullets. rewrite bind_cons. apply app_nil_r. }
  assert (Hw : writes [(model, text)] sources
               = writes_of (sources !! model) (conclusion_bullets text)).
  { unfold writes. rewrite bind_cons. apply app_nil_r. }
  assert (Hline : conclusion_lines [(model, text)] sources !! i
                  = Some (js "- " ++ b ++ cit (collect [(model, text)] sources).2 b)).
  { unfold conclusion_lines. cbv zeta.
    rewrite collect_lines, Set_of_first_occurrences, Hall.
    rewrite first_occurrences_NoDup by done.
    rewrite list_lookup_fmap, lookup_take_lt, Hb by done. reflexivity. }
  rewrite Hline. split.
  - intros e He. do 3 f_equal. apply cit_record.
    rewrite collect_cits, Hw. apply apply_writes_NoDup.
    + eapply sublist_NoDup; [exact Hnd | apply writes_of_keys_sublist].
    + by apply (writes_of_elem _ _ i).
  - intros Hnone Hp. do 2 f_equal.
    rewrite collect_unwritten; [by rewrite app_nil_r | done |].
    intros entry j ->%list_elem_of_singleton Hj. simpl in *.
    by rewrite (NoDup_lookup _ _ _ _ Hnd Hj Hb).
Qed.

Lemma buildConclusion_positional_witness :
  NoDup (conclusion_bullets (js "- first point" ++ [LF] ++ js "- second point")) ∧
  conclusion_lines
    [(js "gemini", js "- first point" ++ [LF] ++ js "- second point")]
    {[ js "gemini" := [Evidence (JStr (js "https://example.org/a"))
                                (JStr (js "Paris")) JUndef (JStr (js "x"))] ]}
  !! 1 = Some (js "- second point").
Proof.
  assert (Hnd : NoDup (conclusion_bullets
                         (js "- first point" ++ [LF] ++ js "- second point"))).
  { apply (bool_decide_unpack _). vm_compute. exact I. }
  split; [exact Hnd|].
  apply (buildConclusion_positional (js "gemini")
           (js "- first point" ++ [LF] ++ js "- second point")
           {[ js "gemini" := [Evidence (JStr (js "https://example.org/a"))
                                       (JStr (js "Paris")) JUndef (JStr (js "x"))] ]}
           1 (js "second point") Hnd).
  - lia.
  - vm_compute. reflexivity.
  - vm_compute. reflexivity.
  - apply (bool_decide_unpack _). vm_compute. exact I.
Defined.

(** ** Edge cases *)

(** The normalizer keeps the lines in the order of the text: its lines are,
    in order, stripped lines of the text with the marker in front. *)
Theorem cleanBullets_keeps_order (text : jsstring) (max : nat) :
  output_lines (cleanBullets text max)
  `sublist_of` ((λ l, js "- " ++ strip_markers l) <$> split LF text).
Proof.
  rewrite output_lines_cleanBullets.
  change ((λ l, js "- " ++ strip_markers l) <$> split LF text)
    with ((bullet ∘ strip_markers) <$> split LF text).
  rewrite list_fmap_compose. apply fmap_sublist. unfold bullets.
  etrans; [apply sublist_take | apply sublist_filter].
Qed.

(** White space around the question changes nothing: the handler does with
    a question what it does with the trimmed question. *)
Theorem ask_question_trimmed (w : world) (q : jsstring)
    (req_file : option file) (s : state) :
  ask w (JStr q) req_file s = ask w (JStr (trim q)) req_file s.
Proof.
  destruct req_file as [f|]; rewrite ?ask_file, ?ask_text; simpl;
    by rewrite trim_idemp.
Qed.

(** A search that answers without results, or with a body that has no
    results at all, gives no evidence: no page is requested and nothing is
    logged. *)
Theorem performWebSearch_no_results (w : world) (query : jsstring) (s : state) :
  well_formed query = true →
  search w query = SearchData None ∨ search w query = SearchData (Some []) →
  performWebSearch w query s
  = (inr [], State (sources s) (trace s ++ [ESearch query])).
Proof.
  intros Hwf Hs. rewrite performWebSearch_run.
  unfold found, search_events, first_results. rewrite Hwf.
  by destruct Hs as [-> | ->].
Qed.

Lemma performWebSearch_no_results_witness :
  well_formed (js "capital?") = true ∧
  performWebSearch methods_world (js "capital?") (State ∅ [])
  = (inr [], State ∅ [ESearch (js "capital?")]).
Proof.
  split; [reflexivity|].
  apply (performWebSearch_no_results methods_world (js "capital?") (State ∅ [])).
  - reflexivity.
  - left. reflexivity.
Defined.
